(** * flower-fiber-demo: the petal deformation and the flower layout

    A shallow embedding of [src/App.js]: the per-frame vertex loop of the
    [Petal] component, the placement loop of the [Flower] component, and the
    keyed petal instances that hold the per-petal refs.

    JavaScript numbers are kept abstract in the definitions (class
    [JsNumber]), so that the code is translated once and read at two
    instances: the real numbers, where arithmetic is exact, and IEEE-754
    binary64, where NaN and the infinities exist. *)

From Stdlib Require Import Reals Lra Lia ZArith SpecFloat.
From stdpp Require Import base list gmap strings.

(** ** Numbers *)

(** The operations [App.js] performs on numbers.  [num_undefined] is what
    arithmetic sees when an array is read past its end (JavaScript yields
    [undefined], and every operator of the loop turns it into NaN). *)
Class JsNumber (num : Type) := {
  num_add : num -> num -> num;
  num_sub : num -> num -> num;
  num_mul : num -> num -> num;
  num_div : num -> num -> num;
  Math_abs : num -> num;
  Math_cos : num -> num;
  Math_sin : num -> num;
  Math_PI : num;
  num_of_nat : nat -> num;
  lit_0_2 : num;
  lit_0_5 : num;
  num_undefined : num
}.

Declare Scope js_scope.
Delimit Scope js_scope with js.
Infix "+" := num_add : js_scope.
Infix "-" := num_sub : js_scope.
Infix "*" := num_mul : js_scope.
Infix "/" := num_div : js_scope.
Notation "0" := (num_of_nat 0) : js_scope.
Notation "1" := (num_of_nat 1) : js_scope.
Notation "2" := (num_of_nat 2) : js_scope.

(** ** The components, over any number type *)

Section Components.
Context {num : Type} `{JsNumber num}.

(** [const noise3D = createNoise3D()]: the simplex-noise field, created
    once per page load with a random permutation table. *)
Variable noise3D : num -> num -> num -> num.

(** The position array of [<sphereGeometry args={[1, 32, 32]} />], three
    numbers per vertex. *)
Variable sphereGeometry : list num.

Definition Vec3 : Type := num * num * num.

(** Props of [Petal] (line 10). *)
Record PetalProps := {
  position : Vec3;
  rotation : Vec3;
  scale : Vec3;
  elongation : num;
  compression : num;
  twist : num;
  noiseScale : num;
  noiseSpeed : num;
  color : string
}.

(** The three refs of a [Petal] instance (lines 11-13).  The mesh is
    represented by [geometry.attributes.position.array]. *)
Record PetalRefs := {
  meshRef_current : option (list num);
  initialPositions_current : option (list num);
  time_current : num
}.

(** [positionAttribute.count]: three.js keeps [array.length / itemSize],
    with [itemSize = 3]. *)
Definition count (array : list num) : nat := length array / 3.

(** [a[i]] used as a number. *)
Definition read (a : list num) (i : nat) : num :=
  default num_undefined (a !! i).

(** [positionAttribute.setXYZ(i, x, y, z)]: three stores into the typed
    array; a store past the end of a typed array is dropped.  The array is
    a Float32Array in three.js; the rounding of the store to single
    precision is not modelled. *)
Definition setXYZ (array : list num) (i : nat) (x y z : num) : list num :=
  <[i * 3 + 2 := z]> (<[i * 3 + 1 := y]> (<[i * 3 := x]> array)).

Local Open Scope js_scope.

(** Lines 30-34, [// Apply noise]. *)
Definition applyNoise (p : PetalProps) (time : num) (v : Vec3) : Vec3 :=
  let '(x, y, z) := v in
  let noiseValue :=
    noise3D (x * noiseScale p) (y * noiseScale p) time * lit_0_2 in
  (x + noiseValue, y + noiseValue, z + noiseValue).

(** Lines 36-37, [// Apply elongation]. *)
Definition applyElongation (p : PetalProps) (v : Vec3) : Vec3 :=
  let '(x, y, z) := v in
  (x, y * (1 + (elongation p - 1) * Math_abs y), z).

(** Lines 39-42, [// Apply compression]. *)
Definition applyCompression (p : PetalProps) (v : Vec3) : Vec3 :=
  let '(x, y, z) := v in
  let compressionFactor := 1 + (compression p - 1) * (1 - Math_abs y) in
  (x * compressionFactor, y, z * compressionFactor).

(** Lines 44-49, [// Apply twist]; the result is the triple handed to
    [setXYZ] on line 51. *)
Definition applyTwist (p : PetalProps) (v : Vec3) : Vec3 :=
  let '(x, y, z) := v in
  let twistAngle := y * twist p * Math_PI * 2 in
  let cosAngle := Math_cos twistAngle in
  let sinAngle := Math_sin twistAngle in
  let newX := x * cosAngle - z * sinAngle in
  let newZ := x * sinAngle + z * cosAngle in
  (newX, y, newZ).

(** The body of the vertex loop between the reads (lines 26-28) and the
    store (line 51). *)
Definition deformVertex (p : PetalProps) (time : num) (v : Vec3) : Vec3 :=
  applyTwist p (applyCompression p (applyElongation p (applyNoise p time v))).

(** Lines 26-28: the reads of vertex [i] from [initialPositions.current]. *)
Definition readVertex (a : list num) (i : nat) : Vec3 :=
  (read a (i * 3), read a (i * 3 + 1), read a (i * 3 + 2)).

(** One iteration of the loop of lines 25-52. *)
Definition loopBody (p : PetalProps) (time : num) (initial : list num)
    (array : list num) (i : nat) : list num :=
  let '(newX, y, newZ) := deformVertex p time (readVertex initial i) in
  setXYZ array i newX y newZ.

(** [for (let i = 0; i < positionAttribute.count; i++)]. *)
Definition vertexLoop (p : PetalProps) (time : num) (initial : list num)
    (array : list num) : list num :=
  foldl (loopBody p time initial) array (seq 0 (count array)).

(** The [useFrame] callback of [Petal] (lines 15-57), run with the props
    of the latest render.  [needsUpdate] and [computeVertexNormals] only
    concern the renderer and are left out. *)
Definition useFrame (p : PetalProps) (delta : num) (r : PetalRefs)
    : PetalRefs :=
  let time := time_current r + delta * noiseSpeed p in
  match meshRef_current r with
  | None =>
      {| meshRef_current := None;
         initialPositions_current := initialPositions_current r;
         time_current := time |}
  | Some array =>
      let initial :=
        match initialPositions_current r with
        | None => array   (* [positionAttribute.array.slice()] *)
        | Some a => a
        end in
      {| meshRef_current := Some (vertexLoop p time initial array);
         initialPositions_current := Some initial;
         time_current := time |}
  end.

(** Props of [Flower] (line 67); the shape props carry the prefix
    [flower_] because [PetalProps] already owns the bare names.
    [petalCount] comes from [parseInt] of a range input and drives an
    integer loop. *)
Record FlowerProps := {
  petalCount : nat;
  petalSize : num;
  flower_elongation : num;
  flower_compression : num;
  flower_twist : num;
  flower_noiseScale : num;
  flower_noiseSpeed : num;
  flower_color : string
}.

(** A [<Petal key={i} ... />] element. *)
Record Element := {
  key : nat;
  props : PetalProps
}.

(** Lines 71-86: the element pushed for index [i]. *)
Definition petalElement (fp : FlowerProps) (i : nat) : Element :=
  let angle := num_of_nat i / num_of_nat (petalCount fp) * Math_PI * 2 in
  let x := Math_cos angle * petalSize fp * lit_0_5 in
  let y := Math_sin angle * petalSize fp * lit_0_5 in
  {| key := i;
     props :=
       {| position := (x, y, 0);
          rotation := (0, 0, angle);
          scale := (petalSize fp * lit_0_2, petalSize fp * lit_0_2,
                    petalSize fp * lit_0_2);
          elongation := flower_elongation fp;
          compression := flower_compression fp;
          twist := flower_twist fp;
          noiseScale := flower_noiseScale fp;
          noiseSpeed := flower_noiseSpeed fp;
          color := flower_color fp |} |}.

(** The [useMemo] callback of [Flower] (lines 68-90): the loop pushes one
    element per index.  The callback is pure, so memoisation on the props
    does not change the value of [petals]. *)
Definition Flower (fp : FlowerProps) : list Element :=
  foldl (fun petalArray i => petalArray ++ [petalElement fp i])
    [] (seq 0 (petalCount fp)).

(** *** Petal instances

    React keeps one component instance per key among the children of
    [Flower]; the refs of [Petal] live in that instance. *)

Record Instance := {
  inst_props : PetalProps;
  inst_refs : PetalRefs
}.

(** A newly created [Petal]: [useRef()], [useRef()], [useRef(0)], and the
    mesh ref filled with the fresh sphere geometry when the mesh is
    attached. *)
Definition mount (e : Element) : Instance :=
  {| inst_props := props e;
     inst_refs :=
       {| meshRef_current := Some sphereGeometry;
          initialPositions_current := None;
          time_current := 0 |} |}.

(** React's reconciliation of keyed children: a child whose key is already
    present keeps its instance (and so its refs) and receives the new
    props; a child with a new key is created; instances whose key is no
    longer rendered are dropped. *)
Definition instanceFor (old : gmap nat Instance) (e : Element) : Instance :=
  match old !! key e with
  | Some inst => {| inst_props := props e; inst_refs := inst_refs inst |}
  | None => mount e
  end.

Definition reconcile (old : gmap nat Instance) (children : list Element)
    : gmap nat Instance :=
  list_to_map ((fun e => (key e, instanceFor old e)) <$> children).

(** A render of [Flower] with props [fp]. *)
Definition render (fp : FlowerProps) (old : gmap nat Instance)
    : gmap nat Instance :=
  reconcile old (Flower fp).

(** One animation frame: every live petal runs its [useFrame] callback. *)
Definition tick (delta : num) (m : gmap nat Instance) : gmap nat Instance :=
  (fun inst =>
     {| inst_props := inst_props inst;
        inst_refs := useFrame (inst_props inst) delta (inst_refs inst) |})
  <$> m.

(** A run of animation frames with the given deltas. *)
Definition runTicks (deltas : list num) (m : gmap nat Instance)
    : gmap nat Instance :=
  foldl (fun m delta => tick delta m) m deltas.

(** The props of [Flower] after [setPetalSize(size)] (lines 97, 130): only
    [petalSize] changes. *)
Definition setPetalSize (size : num) (fp : FlowerProps) : FlowerProps :=
  {| petalCount := petalCount fp;
     petalSize := size;
     flower_elongation := flower_elongation fp;
     flower_compression := flower_compression fp;
     flower_twist := flower_twist fp;
     flower_noiseScale := flower_noiseScale fp;
     flower_noiseSpeed := flower_noiseSpeed fp;
     flower_color := flower_color fp |}.

(** *** Derived views of the refs *)

(** The DeformedMesh: the position array of the attached mesh. *)
Definition deformedMesh (r : PetalRefs) : list num :=
  default [] (meshRef_current r).

(** The BaseMesh: the captured copy, or, before the first frame, the array
    that the first frame is about to capture. *)
Definition baseMesh (r : PetalRefs) : list num :=
  default (deformedMesh r) (initialPositions_current r).

(** The refs of a live petal with [k] vertices: the mesh is attached, its
    array holds [3 * k] numbers, and the captured copy, once taken, has the
    same length (typed arrays never change length). *)
Definition refs_ok (k : nat) (r : PetalRefs) : bool :=
  match meshRef_current r with
  | None => false
  | Some array =>
      Nat.eqb (length array) (3 * k) &&
      match initialPositions_current r with
      | None => true
      | Some initial => Nat.eqb (length initial) (3 * k)
      end
  end.

(** A run of frames, each with the props of the render that precedes it
    and its own delta. *)
Definition runFrames (frames : list (PetalProps * num)) (r : PetalRefs)
    : PetalRefs :=
  foldl (fun r f => useFrame (fst f) (snd f) r) r frames.

(** The three numbers stored for a vertex. *)
Definition coords (v : Vec3) : list num :=
  let '(x, y, z) := v in [x; y; z].

Definition coord_y (v : Vec3) : num := snd (fst v).

(** The deformed vertices of the first [k] base vertices, laid out as the
    position array stores them. *)
Definition deformedArray (p : PetalProps) (time : num) (initial : list num)
    (k : nat) : list num :=
  flat_map (fun i => coords (deformVertex p time (readVertex initial i)))
    (seq 0 k).

End Components.

(** ** Numbers as real numbers: exact arithmetic

    A statement proved at this instance is a statement about the program
    run with exact arithmetic.  Where it is an equation between computed
    numbers it holds in the doubles of the running program up to rounding
    only, unless it is proved at the binary64 instance as well. *)

#[export] Instance R_JsNumber : JsNumber R := {|
  num_add := Rplus;
  num_sub := Rminus;
  num_mul := Rmult;
  num_div := Rdiv;
  Math_abs := Rabs;
  Math_cos := cos;
  Math_sin := sin;
  Math_PI := PI;
  num_of_nat := INR;
  lit_0_2 := 0.2%R;
  lit_0_5 := 0.5%R;
  (* the reals have no NaN; every statement over the reals keeps the reads
     inside the arrays, so that this value is never used *)
  num_undefined := 0%R
|}.

(** ** Numbers as IEEE-754 binary64 *)

Definition f64_prec : Z := 53.
Definition f64_emax : Z := 1024.

Definition f64_of_Z (z : Z) : spec_float :=
  binary_normalize f64_prec f64_emax z 0 false.

(** The double nearest to 0.2, [0x3FC999999999999A]. *)
Definition f64_0_2 : spec_float :=
  Eval vm_compute in SFdiv f64_prec f64_emax (f64_of_Z 1) (f64_of_Z 5).

(** The double 0.5. *)
Definition f64_0_5 : spec_float :=
  Eval vm_compute in SFdiv f64_prec f64_emax (f64_of_Z 1) (f64_of_Z 2).

(** [Math.PI], [0x400921FB54442D18]. *)
Definition f64_PI : spec_float := S754_finite false 7074237752028440 (-51).

Definition is_nan (x : spec_float) : bool :=
  match x with S754_nan => true | _ => false end.

Definition is_finite (x : spec_float) : bool :=
  match x with S754_nan | S754_infinity _ => false | _ => true end.

Section IEEE.

(** [Math.cos] and [Math.sin] on doubles are left to the engine. *)
Variables f64_cos f64_sin : spec_float -> spec_float.

#[export] Instance F64_JsNumber : JsNumber spec_float := {|
  num_add := SFadd f64_prec f64_emax;
  num_sub := SFsub f64_prec f64_emax;
  num_mul := SFmul f64_prec f64_emax;
  num_div := SFdiv f64_prec f64_emax;
  Math_abs := SFabs;
  Math_cos := f64_cos;
  Math_sin := f64_sin;
  Math_PI := f64_PI;
  num_of_nat := fun n => f64_of_Z (Z.of_nat n);
  lit_0_2 := f64_0_2;
  lit_0_5 := f64_0_5;
  num_undefined := S754_nan
|}.

End IEEE.

(** ** The deformation as the specification words it *)

Module Spec.
Section Spec.
Local Open Scope R_scope.

Variable sample : R -> R -> R -> R.

(** Noise displacement: [n = sample(x * noiseScale, y * noiseScale,
    ElapsedPhase) * 0.2], added to x, y and z. *)
Definition noiseDisplacement (noiseScale ElapsedPhase : R) (v : R * R * R)
    : R * R * R :=
  let '(x, y, z) := v in
  let n := sample (x * noiseScale) (y * noiseScale) ElapsedPhase * 0.2 in
  (x + n, y + n, z + n).

(** Elongation: [y' = y * (1 + (elongation - 1) * |y|)]. *)
Definition elongate (elongation y : R) : R :=
  y * (1 + (elongation - 1) * Rabs y).

(** Compression: [factor = 1 + (compression - 1) * (1 - |y'|)]. *)
Definition factor (compression y' : R) : R :=
  1 + (compression - 1) * (1 - Rabs y').

(** Twist: [angle = y' * twist * 2 pi]. *)
Definition angle (twist y' : R) : R := y' * twist * (2 * PI).

(** The four stages in order, each on the output of the one before. *)
Definition advanceVertex (elongation compression twist noiseScale : R)
    (ElapsedPhase : R) (v : R * R * R) : R * R * R :=
  let '(x, y, z) := noiseDisplacement noiseScale ElapsedPhase v in
  let y' := elongate elongation y in
  let x' := x * factor compression y' in
  let z' := z * factor compression y' in
  let x'' := x' * cos (angle twist y') - z' * sin (angle twist y') in
  let z'' := x' * sin (angle twist y') + z' * cos (angle twist y') in
  (x'', y', z'').

(** Layout: [angle = (i / petalCount) * 2 pi]. *)
Definition layoutAngle (petalCount i : nat) : R :=
  INR i / INR petalCount * (2 * PI).

End Spec.
End Spec.

(** ** Sample data *)

(** A smooth bounded field that vanishes at the origin, standing for one
    possible [createNoise3D()]. *)
Definition probeNoise (x y z : R) : R :=
  ((x + y + z) / (1 + (x + y + z) * (x + y + z)))%R.

Definition shapeProps (elongation compression twist noiseScale noiseSpeed : R)
    : PetalProps :=
  {| position := (0, 0, 0)%R;
     rotation := (0, 0, 0)%R;
     scale := (1, 1, 1)%R;
     elongation := elongation;
     compression := compression;
     twist := twist;
     noiseScale := noiseScale;
     noiseSpeed := noiseSpeed;
     color := "#ff88cc" |}.

(** Neutral shape factors: elongation 1, compression 1, twist 0. *)
Definition neutralProps (noiseScale noiseSpeed : R) : PetalProps :=
  shapeProps 1 1 0 noiseScale noiseSpeed.

(** Elongation 2, compression 0.5, one full turn of twist. *)
Definition twistedProps : PetalProps := shapeProps 2 0.5 1 1 0.5.

(** Elongation 2, compression 1.5, no twist. *)
Definition untwistedProps : PetalProps := shapeProps 2 1.5 0 1 0.5.

(** Elongation 0.5. *)
Definition shortenedProps : PetalProps := shapeProps 0.5 1 0 1 0.5.

(** A petal of two vertices in its first frame, at phase [t]. *)
Definition twoVertexRefs (t : R) : PetalRefs :=
  {| meshRef_current := Some [1; 0; 0; 0; 1; 0]%R;
     initialPositions_current := None;
     time_current := t |}.

(** The initial state of [App] (lines 96-103). *)
Definition appProps : FlowerProps :=
  {| petalCount := 5;
     petalSize := 2%R;
     flower_elongation := 1%R;
     flower_compression := 1%R;
     flower_twist := 0%R;
     flower_noiseScale := 1%R;
     flower_noiseSpeed := 0.5%R;
     flower_color := "#ff88cc" |}.

(** Every shape prop is a finite double. *)
Definition shape_finite (p : @PetalProps spec_float) : bool :=
  is_finite (elongation p) && is_finite (compression p) &&
  is_finite (twist p) && is_finite (noiseScale p) &&
  is_finite (noiseSpeed p).

(** Props whose elongation is NaN, every other shape prop being finite. *)
Definition nanElongationProps : @PetalProps spec_float :=
  {| position := (f64_of_Z 0, f64_of_Z 0, f64_of_Z 0);
     rotation := (f64_of_Z 0, f64_of_Z 0, f64_of_Z 0);
     scale := (f64_of_Z 1, f64_of_Z 1, f64_of_Z 1);
     elongation := S754_nan;
     compression := f64_of_Z 1;
     twist := f64_of_Z 0;
     noiseScale := f64_of_Z 1;
     noiseSpeed := f64_0_5;
     color := "#ff88cc" |}.

(** A petal of one vertex, (1, 1, 1), in its first frame. *)
Definition oneVertexRefs : @PetalRefs spec_float :=
  {| meshRef_current := Some [f64_of_Z 1; f64_of_Z 1; f64_of_Z 1];
     initialPositions_current := None;
     time_current := f64_of_Z 0 |}.

(** A noise field that is 0 everywhere. *)
Definition flatNoise (x y z : spec_float) : spec_float := S754_zero false.

(** ** The [App] component *)

Section AppComponent.
Context {num : Type} `{JsNumber num}.
Variable noise3D : num -> num -> num -> num.
Variable sphereGeometry : list num.
Local Open Scope js_scope.

(** The eight [useState] values of [App] (lines 96-103); they are handed to
    [Flower] as its props unchanged (lines 110-119). *)
Definition App_initial : @FlowerProps num :=
  {| petalCount := 5;
     petalSize := 2;
     flower_elongation := 1;
     flower_compression := 1;
     flower_twist := 0;
     flower_noiseScale := 1;
     flower_noiseSpeed := lit_0_5;
     flower_color := "#ff88cc" |}.

(** The other state setters of lines 96-103; each replaces one value. *)
Definition setPetalCount (n : nat) (fp : @FlowerProps num)
    : @FlowerProps num :=
  {| petalCount := n;
     petalSize := petalSize fp;
     flower_elongation := flower_elongation fp;
     flower_compression := flower_compression fp;
     flower_twist := flower_twist fp;
     flower_noiseScale := flower_noiseScale fp;
     flower_noiseSpeed := flower_noiseSpeed fp;
     flower_color := flower_color fp |}.

Definition setElongation (x : num) (fp : @FlowerProps num)
    : @FlowerProps num :=
  {| petalCount := petalCount fp;
     petalSize := petalSize fp;
     flower_elongation := x;
     flower_compression := flower_compression fp;
     flower_twist := flower_twist fp;
     flower_noiseScale := flower_noiseScale fp;
     flower_noiseSpeed := flower_noiseSpeed fp;
     flower_color := flower_color fp |}.

Definition setCompression (x : num) (fp : @FlowerProps num)
    : @FlowerProps num :=
  {| petalCount := petalCount fp;
     petalSize := petalSize fp;
     flower_elongation := flower_elongation fp;
     flower_compression := x;
     flower_twist := flower_twist fp;
     flower_noiseScale := flower_noiseScale fp;
     flower_noiseSpeed := flower_noiseSpeed fp;
     flower_color := flower_color fp |}.

Definition setTwist (x : num) (fp : @FlowerProps num)
    : @FlowerProps num :=
  {| petalCount := petalCount fp;
     petalSize := petalSize fp;
     flower_elongation := flower_elongation fp;
     flower_compression := flower_compression fp;
     flower_twist := x;
     flower_noiseScale := flower_noiseScale fp;
     flower_noiseSpeed := flower_noiseSpeed fp;
     flower_color := flower_color fp |}.

Definition setNoiseScale (x : num) (fp : @FlowerProps num)
    : @FlowerProps num :=
  {| petalCount := petalCount fp;
     petalSize := petalSize fp;
     flower_elongation := flower_elongation fp;
     flower_compression := flower_compression fp;
     flower_twist := flower_twist fp;
     flower_noiseScale := x;
     flower_noiseSpeed := flower_noiseSpeed fp;
     flower_color := flower_color fp |}.

Definition setNoiseSpeed (x : num) (fp : @FlowerProps num)
    : @FlowerProps num :=
  {| petalCount := petalCount fp;
     petalSize := petalSize fp;
     flower_elongation := flower_elongation fp;
     flower_compression := flower_compression fp;
     flower_twist := flower_twist fp;
     flower_noiseScale := flower_noiseScale fp;
     flower_noiseSpeed := x;
     flower_color := flower_color fp |}.

Definition setColor (c : string) (fp : @FlowerProps num)
    : @FlowerProps num :=
  {| petalCount := petalCount fp;
     petalSize := petalSize fp;
     flower_elongation := flower_elongation fp;
     flower_compression := flower_compression fp;
     flower_twist := flower_twist fp;
     flower_noiseScale := flower_noiseScale fp;
     flower_noiseSpeed := flower_noiseSpeed fp;
     flower_color := c |}.

(** What can happen to a mounted [App]: an [onChange] of one of the
    controls (lines 125-160), carrying the value already parsed by
    [parseInt] or [parseFloat], or an animation frame. *)
Inductive Event :=
  | ChangePetalCount (n : nat)
  | ChangePetalSize (x : num)
  | ChangeElongation (x : num)
  | ChangeCompression (x : num)
  | ChangeTwist (x : num)
  | ChangeNoiseScale (x : num)
  | ChangeNoiseSpeed (x : num)
  | ChangeColor (c : string)
  | AnimationFrame (delta : num).

(** The mounted application: the state of [App] and the live petals. *)
Record AppState := {
  app_state : @FlowerProps num;
  app_petals : gmap nat (@Instance num)
}.

(** A state change re-renders [App], hence [Flower], with the new values. *)
Definition rerender (fp : @FlowerProps num) (st : AppState) : AppState :=
  {| app_state := fp;
     app_petals := render sphereGeometry fp (app_petals st) |}.

Definition App_step (ev : Event) (st : AppState) : AppState :=
  match ev with
  | ChangePetalCount n => rerender (setPetalCount n (app_state st)) st
  | ChangePetalSize x => rerender (setPetalSize x (app_state st)) st
  | ChangeElongation x => rerender (setElongation x (app_state st)) st
  | ChangeCompression x => rerender (setCompression x (app_state st)) st
  | ChangeTwist x => rerender (setTwist x (app_state st)) st
  | ChangeNoiseScale x => rerender (setNoiseScale x (app_state st)) st
  | ChangeNoiseSpeed x => rerender (setNoiseSpeed x (app_state st)) st
  | ChangeColor c => rerender (setColor c (app_state st)) st
  | AnimationFrame delta =>
      {| app_state := app_state st;
         app_petals := tick noise3D delta (app_petals st) |}
  end.

(** The first render of [App]. *)
Definition App_start : AppState :=
  rerender App_initial {| app_state := App_initial; app_petals := ∅ |}.

Definition App_run (events : list Event) (st : AppState) : AppState :=
  foldl (fun st ev => App_step ev st) st events.

(** The live petals are those of the current state: keys
    [0 .. petalCount - 1], each with the props [Flower] computes for its
    index and with refs of [k] vertices. *)
Definition app_ok (k : nat) (st : AppState) : Prop :=
  size (app_petals st) = petalCount (app_state st) /\
  forall i,
    match app_petals st !! i with
    | Some inst =>
        (i < petalCount (app_state st))%nat /\
        inst_props inst = props (petalElement (app_state st) i) /\
        refs_ok k (inst_refs inst) = true
    | None => (petalCount (app_state st) <= i)%nat
    end.

End AppComponent.

(** The phase gained over a run of frames. *)
Definition phaseGain (frames : list (@PetalProps R * R)) : R :=
  foldr (fun f acc => (snd f * noiseSpeed (fst f) + acc)%R) 0%R frames.

(** More sample data. *)

(** A petal whose mesh is not attached yet. *)
Definition unattachedRefs : @PetalRefs R :=
  {| meshRef_current := None;
     initialPositions_current := None;
     time_current := 0%R |}.

(** A geometry of two vertices, (1, 0, 0) and (0, 1, 0). *)
Definition twoVertexGeometry : list R := [1; 0; 0; 0; 1; 0]%R.

Definition f64Props (elongation compression noiseSpeed : spec_float)
    : @PetalProps spec_float :=
  {| position := (f64_of_Z 0, f64_of_Z 0, f64_of_Z 0);
     rotation := (f64_of_Z 0, f64_of_Z 0, f64_of_Z 0);
     scale := (f64_of_Z 1, f64_of_Z 1, f64_of_Z 1);
     elongation := elongation;
     compression := compression;
     twist := f64_of_Z 0;
     noiseScale := f64_of_Z 1;
     noiseSpeed := noiseSpeed;
     color := "#ff88cc" |}.

(** ** The layout angle *)

(** The angle of line 71 for index [i] of [petalCount] petals. *)
Definition petalAngle {num : Type} `{JsNumber num} (petalCount i : nat)
    : num :=
  (num_of_nat i / num_of_nat petalCount * Math_PI * 2)%js.

(** The same angle written with the binary64 operations; it needs neither
    [Math.cos] nor [Math.sin]. *)
Definition f64_petalAngle (petalCount i : nat) : spec_float :=
  SFmul f64_prec f64_emax
    (SFmul f64_prec f64_emax
       (SFdiv f64_prec f64_emax (f64_of_Z (Z.of_nat i))
          (f64_of_Z (Z.of_nat petalCount)))
       f64_PI)
    (f64_of_Z 2).

(** [(i / petalCount) * (2 * Math.PI)] in binary64. *)
Definition f64_specAngle (petalCount i : nat) : spec_float :=
  SFmul f64_prec f64_emax
    (SFdiv f64_prec f64_emax (f64_of_Z (Z.of_nat i))
       (f64_of_Z (Z.of_nat petalCount)))
    (SFmul f64_prec f64_emax (f64_of_Z 2) f64_PI).

(** [2 * Math.PI / petalCount] in binary64. *)
Definition f64_step (petalCount : nat) : spec_float :=
  SFdiv f64_prec f64_emax
    (SFmul f64_prec f64_emax (f64_of_Z 2) f64_PI)
    (f64_of_Z (Z.of_nat petalCount)).

(** [===] and [<] on binary64 numbers. *)
Definition f64_eqb : spec_float -> spec_float -> bool := SFeqb.
Definition f64_ltb : spec_float -> spec_float -> bool := SFltb.

(** For one petal count, in binary64: angle 0 is 0, every angle equals
    [(i / petalCount) * (2 * Math.PI)], and the angles increase strictly
    with the index. *)
Definition f64_layout_checks (petalCount : nat) : bool :=
  f64_eqb (f64_petalAngle petalCount 0) (f64_of_Z 0) &&
  forallb
    (fun i => f64_eqb (f64_petalAngle petalCount i)
                (f64_specAngle petalCount i))
    (seq 0 petalCount) &&
  forallb
    (fun i => f64_ltb (f64_petalAngle petalCount i)
                (f64_petalAngle petalCount (S i)))
    (seq 0 (petalCount - 1)).

(** * Facts that hold for every number type *)

Section ComponentFacts.
Context {num : Type} `{JsNumber num}.
Variable noise3D : num -> num -> num -> num.
Implicit Types (p : @PetalProps num) (r : @PetalRefs num) (v : @Vec3 num).
Implicit Types (array initial : list num) (time delta : num).

(** ** The vertex loop in closed form *)

Lemma length_coords v : length (coords v) = 3%nat.
Proof. destruct v as [[x y] z]. reflexivity. Qed.

Lemma length_deformedArray p time initial k :
  length (deformedArray noise3D p time initial k) = (3 * k)%nat.
Proof.
  unfold deformedArray. induction k as [|k IH]; [reflexivity|].
  rewrite seq_S, flat_map_app, length_app, IH. cbn [flat_map].
  rewrite app_nil_r, length_coords. lia.
Qed.

Lemma deformedArray_S p time initial k :
  deformedArray noise3D p time initial (S k) =
  deformedArray noise3D p time initial k ++
  coords (deformVertex noise3D p time (readVertex initial k)).
Proof.
  unfold deformedArray. rewrite seq_S, flat_map_app. cbn [flat_map].
  now rewrite app_nil_r.
Qed.

Lemma setXYZ_app (done rest : list num) k x y z :
  length done = (3 * k)%nat ->
  setXYZ (done ++ rest) k x y z = done ++ setXYZ rest 0 x y z.
Proof.
  intros Hlen. unfold setXYZ.
  replace (k * 3)%nat with (length done + 0)%nat by lia.
  replace (length done + 0 + 1)%nat with (length done + 1)%nat by lia.
  replace (length done + 0 + 2)%nat with (length done + 2)%nat by lia.
  now rewrite !insert_app_r.
Qed.

Lemma setXYZ_head a b c (rest : list num) x y z :
  setXYZ (a :: b :: c :: rest) 0 x y z = x :: y :: z :: rest.
Proof. reflexivity. Qed.

Lemma drop_three (l : list num) n :
  (3 * S n <= length l)%nat ->
  exists a b c, drop (3 * n) l = a :: b :: c :: drop (3 * S n) l.
Proof.
  intros Hlen.
  destruct (drop (3 * n) l) as [|a [|b [|c rest]]] eqn:E;
    try (apply (f_equal length) in E; rewrite length_drop in E;
         simpl in E; lia).
  exists a, b, c. do 3 f_equal.
  replace (3 * S n)%nat with (3 * n + 3)%nat by lia.
  rewrite <- drop_drop, E. reflexivity.
Qed.

(** After [n] iterations the first [n] vertices are deformed and the rest
    of the array is as it was. *)
Lemma loop_prefix p time initial array n :
  (3 * n <= length array)%nat ->
  foldl (loopBody noise3D p time initial) array (seq 0 n) =
  deformedArray noise3D p time initial n ++ drop (3 * n) array.
Proof.
  induction n as [|n IH]; intros Hlen.
  - simpl. now rewrite drop_0.
  - rewrite seq_S, foldl_app. cbn [foldl Nat.add]. rewrite IH by lia.
    rewrite deformedArray_S. unfold loopBody.
    destruct (deformVertex noise3D p time (readVertex initial n)) as [[x y] z].
    rewrite setXYZ_app by apply length_deformedArray.
    destruct (drop_three array n Hlen) as (a & b & c & ->).
    rewrite setXYZ_head. cbn [coords]. now rewrite <- app_assoc.
Qed.

Lemma count_3k (array : list num) k :
  length array = (3 * k)%nat -> count array = k.
Proof.
  intros Hlen. unfold count. rewrite Hlen, Nat.mul_comm.
  now apply Nat.div_mul.
Qed.

(** On an array of [k] vertices the loop writes exactly the deformed base
    vertices, whatever the array held before. *)
Lemma vertexLoop_closed p time initial array k :
  length array = (3 * k)%nat ->
  vertexLoop noise3D p time initial array = deformedArray noise3D p time initial k.
Proof.
  intros Hlen. unfold vertexLoop. rewrite (count_3k _ _ Hlen).
  rewrite loop_prefix by lia.
  rewrite drop_ge by lia. apply app_nil_r.
Qed.

Lemma readVertex_app_coords (done : list num) k v rest :
  length done = (3 * k)%nat ->
  readVertex (done ++ coords v ++ rest) k = v.
Proof.
  intros Hlen. destruct v as [[x y] z]. unfold readVertex, read. simpl.
  replace (k * 3)%nat with (length done + 0)%nat by lia.
  replace (length done + 0 + 1)%nat with (length done + 1)%nat by lia.
  replace (length done + 0 + 2)%nat with (length done + 2)%nat by lia.
  now rewrite !lookup_app_r, !Nat.add_sub' by lia.
Qed.

Lemma readVertex_app_l (l1 l2 : list num) i :
  (3 * S i <= length l1)%nat ->
  readVertex (l1 ++ l2) i = readVertex l1 i.
Proof.
  intros Hlen. unfold readVertex, read.
  now rewrite !lookup_app_l by lia.
Qed.

(** Vertex [i] of the deformed array is the deformation of vertex [i] of
    the base array. *)
Lemma readVertex_deformedArray p time initial k i :
  (i < k)%nat ->
  readVertex (deformedArray noise3D p time initial k) i =
  deformVertex noise3D p time (readVertex initial i).
Proof.
  induction k as [|k IH]; intros Hi; [lia|].
  rewrite deformedArray_S.
  destruct (decide (i = k)) as [->|Hne].
  - rewrite <- (app_nil_r (coords _)).
    apply readVertex_app_coords, length_deformedArray.
  - rewrite readVertex_app_l by (rewrite length_deformedArray; lia).
    apply IH. lia.
Qed.


(** An array of [k] vertices is the concatenation of its vertices. *)
Lemma flat_vertices (f : nat -> @Vec3 num) (l : list num) k :
  length l = (3 * k)%nat ->
  (forall i, (i < k)%nat -> f i = readVertex l i) ->
  flat_map (fun i => coords (f i)) (seq 0 k) = l.
Proof.
  revert l. induction k as [|k IH]; intros l Hlen Hf.
  - destruct l; [reflexivity|discriminate].
  - destruct (drop_three l k) as (a & b & c & Hd); [lia|].
    rewrite (drop_ge l (3 * S k)) in Hd by lia.
    assert (Hl : l = take (3 * k) l ++ coords (a, b, c) ++ [])
      by (rewrite <- (take_drop (3 * k) l) at 1; now rewrite Hd).
    assert (Ht : length (take (3 * k) l) = (3 * k)%nat)
      by (rewrite length_take; lia).
    rewrite seq_S, flat_map_app. cbn [flat_map Nat.add].
    rewrite (IH (take (3 * k) l) Ht).
    + rewrite (Hf k) by lia. rewrite Hl at 2.
      rewrite (readVertex_app_coords _ k (a, b, c) [] Ht).
      symmetry. exact Hl.
    + intros i Hi. rewrite (Hf i) by lia. rewrite Hl at 1.
      apply readVertex_app_l. lia.
Qed.

(** Where the deformation fixes every base vertex, the deformed array is
    the base array. *)
Lemma deformedArray_fixed p time initial k :
  length initial = (3 * k)%nat ->
  (forall i, (i < k)%nat ->
     deformVertex noise3D p time (readVertex initial i) =
     readVertex initial i) ->
  deformedArray noise3D p time initial k = initial.
Proof. intros Hlen Hfix. now apply flat_vertices. Qed.

(** ** One frame *)

Lemma refs_ok_inv k r :
  refs_ok k r = true ->
  exists array,
    meshRef_current r = Some array /\ length array = (3 * k)%nat /\
    length (baseMesh r) = (3 * k)%nat.
Proof.
  unfold refs_ok, baseMesh, deformedMesh.
  destruct (meshRef_current r) as [array|]; [|discriminate].
  intros [Ha Hi]%andb_prop. apply Nat.eqb_eq in Ha.
  exists array. split; [reflexivity|]. split; [exact Ha|].
  destruct (initialPositions_current r) as [initial|]; simpl.
  - now apply Nat.eqb_eq in Hi.
  - exact Ha.
Qed.

Lemma useFrame_time p delta r :
  time_current (useFrame noise3D p delta r) =
  (time_current r + delta * noiseSpeed p)%js.
Proof. unfold useFrame. now destruct (meshRef_current r). Qed.

Lemma useFrame_initial p delta r k :
  refs_ok k r = true ->
  initialPositions_current (useFrame noise3D p delta r) = Some (baseMesh r).
Proof.
  intros (array & Hm & _ & _)%refs_ok_inv.
  unfold useFrame, baseMesh, deformedMesh. rewrite Hm. simpl.
  now destruct (initialPositions_current r).
Qed.

Lemma useFrame_baseMesh p delta r k :
  refs_ok k r = true -> baseMesh (useFrame noise3D p delta r) = baseMesh r.
Proof.
  intros Hok. unfold baseMesh at 1.
  now rewrite (useFrame_initial _ _ _ _ Hok).
Qed.

(** The array after a frame is the deformation of the base mesh at the
    new phase. *)
Lemma useFrame_deformedMesh p delta r k :
  refs_ok k r = true ->
  deformedMesh (useFrame noise3D p delta r) =
  deformedArray noise3D p (time_current r + delta * noiseSpeed p)%js
    (baseMesh r) k.
Proof.
  intros (array & Hm & Hlen & _)%refs_ok_inv.
  unfold useFrame, baseMesh, deformedMesh. rewrite Hm. simpl.
  rewrite (vertexLoop_closed _ _ _ _ k Hlen).
  now destruct (initialPositions_current r).
Qed.

Lemma useFrame_ok p delta r k :
  refs_ok k r = true -> refs_ok k (useFrame noise3D p delta r) = true.
Proof.
  intros Hok.
  pose proof (useFrame_deformedMesh p delta r k Hok) as Hd.
  pose proof (useFrame_initial p delta r k Hok) as Hi.
  destruct (refs_ok_inv k r Hok) as (array & Hm & Hlen & Hb).
  assert (Hm' : meshRef_current (useFrame noise3D p delta r) =
                Some (deformedMesh (useFrame noise3D p delta r))).
  { unfold deformedMesh, useFrame. now rewrite Hm. }
  unfold refs_ok. rewrite Hi, Hm', Hd, length_deformedArray, Hb.
  now rewrite Nat.eqb_refl.
Qed.

Lemma runFrames_snoc frames p delta r :
  runFrames noise3D (frames ++ [(p, delta)]) r =
  useFrame noise3D p delta (runFrames noise3D frames r).
Proof. unfold runFrames. now rewrite foldl_app. Qed.

Lemma runFrames_ok frames r k :
  refs_ok k r = true -> refs_ok k (runFrames noise3D frames r) = true.
Proof.
  revert r. induction frames as [|[p delta] frames IH]; intros r Hok.
  - exact Hok.
  - apply IH. now apply useFrame_ok.
Qed.

(** The base mesh of a live petal is the same after any run of frames. *)
Lemma runFrames_baseMesh frames r k :
  refs_ok k r = true -> baseMesh (runFrames noise3D frames r) = baseMesh r.
Proof.
  revert r. induction frames as [|[p delta] frames IH]; intros r Hok.
  - reflexivity.
  - simpl. rewrite IH by now apply useFrame_ok.
    now apply useFrame_baseMesh with (k := k).
Qed.

(** The y written for a vertex: noise, then elongation; compression and
    twist pass it on. *)
Lemma deformVertex_y p time v :
  coord_y (deformVertex noise3D p time v) =
  coord_y (applyElongation p (applyNoise noise3D p time v)).
Proof.
  unfold deformVertex.
  destruct (applyElongation p (applyNoise noise3D p time v)) as [[x y] z].
  reflexivity.
Qed.

(** C9. After any earlier frames and with any props, a frame leaves the
    position array with as many numbers (and vertices) as the base mesh,
    and vertex [i] of the output is the deformation of vertex [i] of the
    base mesh. *)
Theorem C9_vertex_count_and_order frames p delta r k :
  refs_ok k r = true ->
  let r' := useFrame noise3D p delta (runFrames noise3D frames r) in
  length (deformedMesh r') = length (baseMesh r) /\
  count (deformedMesh r') = count (baseMesh r) /\
  forall i, (i < count (baseMesh r))%nat ->
    readVertex (deformedMesh r') i =
    deformVertex noise3D p (time_current r') (readVertex (baseMesh r) i).
Proof.
  intros Hok r'.
  pose proof (runFrames_ok frames r k Hok) as Hok'.
  pose proof (runFrames_baseMesh frames r k Hok) as Hbase.
  destruct (refs_ok_inv k r Hok) as (array & _ & _ & Hb).
  assert (Hd : deformedMesh r' =
               deformedArray noise3D p (time_current r') (baseMesh r) k).
  { unfold r'. rewrite useFrame_time, <- Hbase.
    now apply useFrame_deformedMesh. }
  assert (Hlen : length (deformedMesh r') = (3 * k)%nat)
    by (rewrite Hd; apply length_deformedArray).
  split; [congruence|]. split.
  - unfold count. congruence.
  - intros i Hi. rewrite (count_3k _ _ Hb) in Hi. rewrite Hd.
    now apply readVertex_deformedArray.
Qed.

(** C10. Two sets of props that agree on elongation, noiseScale and
    noiseSpeed give every vertex the same y, whatever their compression
    and twist. *)
Theorem C10_y_ignores_compression_and_twist p1 p2 delta r k i :
  refs_ok k r = true ->
  (i < k)%nat ->
  elongation p1 = elongation p2 ->
  noiseScale p1 = noiseScale p2 ->
  noiseSpeed p1 = noiseSpeed p2 ->
  coord_y (readVertex (deformedMesh (useFrame noise3D p1 delta r)) i) =
  coord_y (readVertex (deformedMesh (useFrame noise3D p2 delta r)) i).
Proof.
  intros Hok Hi He Hs Hv.
  rewrite !(useFrame_deformedMesh _ _ _ k Hok).
  rewrite !readVertex_deformedArray by exact Hi.
  rewrite !deformVertex_y, Hv.
  unfold applyNoise, applyElongation.
  destruct (readVertex (baseMesh r) i) as [[x y] z].
  now rewrite He, Hs.
Qed.

(** ** The children of [Flower] and the petal instances *)

Variable sphereGeometry : list num.
Implicit Types (fp : @FlowerProps num) (m : gmap nat (@Instance num)).

Lemma Flower_fmap fp :
  Flower fp = petalElement fp <$> seq 0 (petalCount fp).
Proof.
  unfold Flower. induction (petalCount fp) as [|n IH]; [reflexivity|].
  now rewrite seq_S, foldl_app, fmap_app, IH.
Qed.

Lemma length_Flower fp : length (Flower fp) = petalCount fp.
Proof. now rewrite Flower_fmap, length_fmap, length_seq. Qed.

Lemma Flower_lookup fp i :
  (i < petalCount fp)%nat -> Flower fp !! i = Some (petalElement fp i).
Proof.
  intros Hi. rewrite Flower_fmap, list_lookup_fmap.
  now rewrite lookup_seq_lt.
Qed.

Lemma reconcile_keys fp m (l : list nat) :
  ((fun e => (key e, instanceFor sphereGeometry m e)) <$>
     (petalElement fp <$> l)).*1 = l.
Proof.
  induction l as [|i l IH]; [reflexivity|].
  rewrite !fmap_cons, IH. reflexivity.
Qed.

Lemma render_lookup_lt fp m i :
  (i < petalCount fp)%nat ->
  render sphereGeometry fp m !! i =
  Some (instanceFor sphereGeometry m (petalElement fp i)).
Proof.
  intros Hi. unfold render, reconcile. rewrite Flower_fmap.
  apply elem_of_list_to_map_1.
  - rewrite reconcile_keys. apply NoDup_seq.
  - apply (list_elem_of_fmap_2'
             (fun e => (key e, instanceFor sphereGeometry m e))
             _ (petalElement fp i)); [|reflexivity].
    apply list_elem_of_fmap_2, elem_of_seq. lia.
Qed.

Lemma render_lookup_ge fp m i :
  (petalCount fp <= i)%nat -> render sphereGeometry fp m !! i = None.
Proof.
  intros Hi. unfold render, reconcile. rewrite Flower_fmap.
  apply not_elem_of_list_to_map_1.
  rewrite reconcile_keys, elem_of_seq. lia.
Qed.

Lemma tick_lookup delta m i :
  tick noise3D delta m !! i =
  (fun inst =>
     {| inst_props := inst_props inst;
        inst_refs := useFrame noise3D (inst_props inst) delta (inst_refs inst) |})
  <$> m !! i.
Proof. unfold tick. apply lookup_fmap. Qed.

Lemma instanceFor_kept m (e : @Element num) inst :
  m !! key e = Some inst ->
  inst_refs (instanceFor sphereGeometry m e) = inst_refs inst.
Proof. intros Hm. unfold instanceFor. now rewrite Hm. Qed.

Lemma instanceFor_new m (e : @Element num) :
  m !! key e = None -> instanceFor sphereGeometry m e = mount sphereGeometry e.
Proof. intros Hm. unfold instanceFor. now rewrite Hm. Qed.

(** A newly created petal is live when the sphere geometry holds [k]
    vertices. *)
Lemma mount_ok (e : @Element num) k :
  length sphereGeometry = (3 * k)%nat ->
  refs_ok k (inst_refs (mount sphereGeometry e)) = true.
Proof.
  intros Hlen. unfold refs_ok, mount. cbn. rewrite Hlen.
  now rewrite Nat.eqb_refl.
Qed.

(** Frames neither create nor drop instances. *)
Lemma runTicks_lookup_None deltas m i :
  m !! i = None -> runTicks noise3D deltas m !! i = None.
Proof.
  revert m. induction deltas as [|delta deltas IH]; intros m Hm; [exact Hm|].
  apply IH. now rewrite tick_lookup, Hm.
Qed.

End ComponentFacts.

(** * Facts over the real numbers *)

Section RealFacts.
Local Open Scope R_scope.
Variable noise3D : R -> R -> R -> R.
Variable sphereGeometry : list R.
Implicit Types (p : @PetalProps R) (r : @PetalRefs R) (v : @Vec3 R).
Implicit Types (fp : @FlowerProps R).

(** Reads the class operations at the instance [R_JsNumber]. *)
Ltac at_R :=
  cbn [num_add num_sub num_mul num_div Math_abs Math_cos Math_sin Math_PI
       num_of_nat lit_0_2 lit_0_5 R_JsNumber INR] in *.

(** ** The vertex pipeline *)

Lemma twistAngle_spec y t : y * t * PI * (1 + 1) = Spec.angle t y.
Proof. unfold Spec.angle. ring. Qed.

(** The loop body is the four stages of the specification, in order. *)
Lemma deformVertex_spec p time v :
  deformVertex noise3D p time v =
  Spec.advanceVertex noise3D (elongation p) (compression p) (twist p)
    (noiseScale p) time v.
Proof.
  destruct v as [[x y] z].
  unfold deformVertex, applyTwist, applyCompression, applyElongation,
    applyNoise, Spec.advanceVertex, Spec.noiseDisplacement, Spec.elongate,
    Spec.factor.
  at_R. now rewrite twistAngle_spec.
Qed.

Lemma applyTwist_zero p v : twist p = 0 -> applyTwist p v = v.
Proof.
  intros Ht. destruct v as [[x y] z]. unfold applyTwist. at_R. rewrite Ht.
  replace (y * 0 * PI * (1 + 1)) with 0 by ring.
  rewrite cos_0, sin_0. f_equal; [f_equal|]; ring.
Qed.

(** With neutral shape factors only the noise offset is left. *)
Lemma neutral_deformVertex p time x y z :
  elongation p = 1 -> compression p = 1 -> twist p = 0 ->
  deformVertex noise3D p time (x, y, z) =
  let n := noise3D (x * noiseScale p) (y * noiseScale p) time * 0.2 in
  (x + n, y + n, z + n).
Proof.
  intros He Hc Ht. unfold deformVertex. rewrite applyTwist_zero by exact Ht.
  unfold applyCompression, applyElongation, applyNoise. at_R.
  rewrite He, Hc. cbv zeta. f_equal; [f_equal|]; ring.
Qed.

(** ** Elongation *)

Lemma elongation_grows e y :
  1 < e -> Rabs y <= Rabs (y * (1 + (e - 1) * Rabs y)).
Proof.
  intros He. rewrite Rabs_mult. pose proof (Rabs_pos y) as Hy.
  rewrite (Rabs_pos_eq (1 + _)) by nra. nra.
Qed.

Lemma elongation_shrinks e y :
  e < 1 -> (1 - e) * Rabs y <= 2 ->
  Rabs (y * (1 + (e - 1) * Rabs y)) <= Rabs y.
Proof.
  intros He Hb. rewrite Rabs_mult. pose proof (Rabs_pos y) as Hy.
  assert (Rabs (1 + (e - 1) * Rabs y) <= 1) by (apply Rabs_le; nra).
  nra.
Qed.

Lemma elongation_overshoots e y :
  e < 1 -> 2 < (1 - e) * Rabs y ->
  Rabs y < Rabs (y * (1 + (e - 1) * Rabs y)).
Proof.
  intros He Hb. rewrite Rabs_mult. pose proof (Rabs_pos y) as Hy.
  assert (0 < Rabs y) by nra.
  rewrite (Rabs_left (1 + _)) by nra. nra.
Qed.

(** ** The claims on the vertex pipeline *)

(** C1. For every base vertex, props and phase the loop body is the four
    stages of the specification in their order (noise, elongation,
    compression, twist), each applied to the output of the one before;
    and in a frame every vertex written is that pipeline applied to the
    base vertex at the phase reached by this frame. *)
Theorem C1_advance_applies_the_four_stages p delta r k i :
  refs_ok k r = true ->
  (i < k)%nat ->
  let r' := useFrame noise3D p delta r in
  (forall time v,
     deformVertex noise3D p time v =
     Spec.advanceVertex noise3D (elongation p) (compression p) (twist p)
       (noiseScale p) time v) /\
  time_current r' = time_current r + delta * noiseSpeed p /\
  readVertex (deformedMesh r') i =
  Spec.advanceVertex noise3D (elongation p) (compression p) (twist p)
    (noiseScale p) (time_current r') (readVertex (baseMesh r) i).
Proof.
  intros Hok Hi r'. split; [intros time v; apply deformVertex_spec|].
  split; [exact (useFrame_time noise3D p delta r)|].
  unfold r'. rewrite (useFrame_deformedMesh _ _ _ _ k Hok), useFrame_time.
  rewrite readVertex_deformedArray by exact Hi.
  apply deformVertex_spec.
Qed.

(** C8. With twist = 0 the twist block returns its input, so the vertex
    written is the vertex after compression, for any elongation and
    compression. *)
Theorem C8_twist_zero_is_identity p time v :
  twist p = 0 ->
  (forall v', applyTwist p v' = v') /\
  deformVertex noise3D p time v =
  applyCompression p (applyElongation p (applyNoise noise3D p time v)).
Proof.
  intros Ht. split.
  - intros v'. now apply applyTwist_zero.
  - unfold deformVertex. now apply applyTwist_zero.
Qed.

(** Elongation above 1 never shrinks |y|; elongation below 1 never grows
    |y| as long as (1 - elongation) * |y| <= 2, and grows it beyond that
    bound. *)
Lemma elongation_monotone_within_bound p x y z :
  let y' := coord_y (applyElongation p (x, y, z)) in
  (1 < elongation p -> Rabs y <= Rabs y') /\
  (elongation p < 1 -> (1 - elongation p) * Rabs y <= 2 ->
   Rabs y' <= Rabs y) /\
  (elongation p < 1 -> 2 < (1 - elongation p) * Rabs y ->
   Rabs y < Rabs y').
Proof.
  unfold applyElongation, coord_y. at_R. cbn [fst snd].
  split; [|split].
  - apply elongation_grows.
  - apply elongation_shrinks.
  - apply elongation_overshoots.
Qed.

(** The y that enters the elongation block: a base vertex of the unit
    sphere, moved by 0.2 times a noise sample in [-1, 1], has
    |y| <= 1.2. *)
Lemma entering_y_bound p time x y z :
  Rabs y <= 1 ->
  Rabs (noise3D (x * noiseScale p) (y * noiseScale p) time) <= 1 ->
  Rabs (coord_y (applyNoise noise3D p time (x, y, z))) <= 1.2.
Proof.
  intros Hy Hn. unfold applyNoise, coord_y. at_R. cbn [fst snd].
  unfold Rabs in *.
  destruct (Rcase_abs y), (Rcase_abs (noise3D _ _ _)), (Rcase_abs (_ + _));
    lra.
Qed.

(** C7. For every vertex that enters the elongation block of the program,
    that is with a positive elongation and |y| <= 2 (the block receives
    |y| <= 1.2, see [entering_y_bound]): the block returns
    y' = y * (1 + (elongation - 1) * |y|), with |y'| >= |y| when
    elongation > 1 and |y'| <= |y| when elongation < 1.  This holds for
    y = 0 as well. *)
Theorem C7_elongation_monotone p x y z :
  0 < elongation p ->
  Rabs y <= 2 ->
  let y' := coord_y (applyElongation p (x, y, z)) in
  y' = y * (1 + (elongation p - 1) * Rabs y) /\
  (1 < elongation p -> Rabs y <= Rabs y') /\
  (elongation p < 1 -> Rabs y' <= Rabs y).
Proof.
  intros He Hy. unfold applyElongation, coord_y. at_R. cbn [fst snd].
  split; [reflexivity|]. split.
  - apply elongation_grows.
  - intros Hlt. apply elongation_shrinks; [exact Hlt|].
    pose proof (Rabs_pos y). nra.
Qed.

(** C2, as amended. With elongation 1, compression 1 and twist 0 every
    vertex written is the base vertex moved by its noise offset on all
    three axes; the deformed mesh is the base mesh when that offset is 0
    at every vertex; noiseScale = 0 makes the offset the same for all
    vertices, namely the sample at (0, 0, phase) times 0.2. *)
Theorem C2_neutral_shape_leaves_the_noise_offset p delta r k :
  refs_ok k r = true ->
  elongation p = 1 -> compression p = 1 -> twist p = 0 ->
  let r' := useFrame noise3D p delta r in
  let n x y :=
    noise3D (x * noiseScale p) (y * noiseScale p) (time_current r') * 0.2 in
  (forall i x y z, (i < k)%nat -> readVertex (baseMesh r) i = (x, y, z) ->
     readVertex (deformedMesh r') i = (x + n x y, y + n x y, z + n x y)) /\
  ((forall i x y z, (i < k)%nat -> readVertex (baseMesh r) i = (x, y, z) ->
      n x y = 0) ->
   deformedMesh r' = baseMesh r) /\
  (noiseScale p = 0 ->
   forall x y, n x y = noise3D 0 0 (time_current r') * 0.2).
Proof.
  intros Hok He Hc Ht r' n.
  assert (Hd : deformedMesh r' =
               deformedArray noise3D p (time_current r') (baseMesh r) k).
  { unfold r'. rewrite useFrame_time. now apply useFrame_deformedMesh. }
  destruct (refs_ok_inv k r Hok) as (array & _ & _ & Hb).
  split; [|split].
  - intros i x y z Hi Hv. rewrite Hd, readVertex_deformedArray by exact Hi.
    rewrite Hv. now apply neutral_deformVertex.
  - intros Hzero. rewrite Hd. apply deformedArray_fixed; [exact Hb|].
    intros i Hi. destruct (readVertex (baseMesh r) i) as [[x y] z] eqn:Hv.
    rewrite neutral_deformVertex by assumption. cbv zeta.
    fold (n x y). rewrite (Hzero i x y z Hi Hv).
    f_equal; [f_equal|]; ring.
  - intros Hs x y. unfold n. rewrite Hs. now rewrite !Rmult_0_r.
Qed.

(** ** The claims on the refs across frames *)

(** C5. A frame leaves the captured base positions as they are, also over
    any run of frames; the array it writes is determined by the base
    mesh, the props and the phase reached, whatever the array held
    before; a second frame at the same phase writes the same array. *)
Theorem C5_frames_recompute_from_the_base p delta r k :
  refs_ok k r = true ->
  let r' := useFrame noise3D p delta r in
  initialPositions_current r' = Some (baseMesh r) /\
  (forall frames, baseMesh (runFrames noise3D frames r) = baseMesh r) /\
  (forall r2 delta2,
     refs_ok k r2 = true -> baseMesh r2 = baseMesh r ->
     time_current r2 + delta2 * noiseSpeed p =
     time_current r + delta * noiseSpeed p ->
     deformedMesh (useFrame noise3D p delta2 r2) = deformedMesh r') /\
  deformedMesh (useFrame noise3D p 0 r') = deformedMesh r'.
Proof.
  intros Hok r'.
  assert (Hsame : forall r2 delta2,
            refs_ok k r2 = true -> baseMesh r2 = baseMesh r ->
            time_current r2 + delta2 * noiseSpeed p =
            time_current r + delta * noiseSpeed p ->
            deformedMesh (useFrame noise3D p delta2 r2) = deformedMesh r').
  { intros r2 delta2 Hok2 Hb Ht. unfold r'.
    rewrite (useFrame_deformedMesh _ _ _ _ k Hok2).
    rewrite (useFrame_deformedMesh _ _ _ _ k Hok). at_R.
    now rewrite Hb, Ht. }
  split; [now apply useFrame_initial with (k := k)|].
  split; [intros frames; now apply runFrames_baseMesh with (k := k)|].
  split; [exact Hsame|].
  apply Hsame.
  - now apply useFrame_ok.
  - now apply useFrame_baseMesh with (k := k).
  - unfold r'. rewrite useFrame_time. at_R. ring.
Qed.

(** C6. Every frame adds exactly delta * noiseSpeed to the phase of a
    petal, so the phase does not decrease when delta > 0 and
    noiseSpeed >= 0; a render keeps the refs of every petal whose key is
    still rendered, whatever props changed, and starts a petal with a new
    key at phase 0; a change of petalSize alone keeps the phase of every
    live petal. *)
Theorem C6_phase_accumulates_and_persists :
  (forall p delta r,
     time_current (useFrame noise3D p delta r) =
     time_current r + delta * noiseSpeed p) /\
  (forall p delta r, 0 < delta -> 0 <= noiseSpeed p ->
     time_current r <= time_current (useFrame noise3D p delta r)) /\
  (forall delta (m : gmap nat Instance) i inst, m !! i = Some inst ->
     exists inst', tick noise3D delta m !! i = Some inst' /\
       time_current (inst_refs inst') =
       time_current (inst_refs inst) + delta * noiseSpeed (inst_props inst)) /\
  (forall fp (m : gmap nat Instance) i inst,
     (i < petalCount fp)%nat -> m !! i = Some inst ->
     exists inst', render sphereGeometry fp m !! i = Some inst' /\
       inst_refs inst' = inst_refs inst) /\
  (forall fp (m : gmap nat Instance) i,
     (i < petalCount fp)%nat -> m !! i = None ->
     exists inst', render sphereGeometry fp m !! i = Some inst' /\
       time_current (inst_refs inst') = 0) /\
  (forall fp size m0 deltas i inst,
     let m := runTicks noise3D deltas (render sphereGeometry fp m0) in
     m !! i = Some inst ->
     exists inst', render sphereGeometry (setPetalSize size fp) m !! i =
                   Some inst' /\
       time_current (inst_refs inst') = time_current (inst_refs inst)).
Proof.
  split; [|split; [|split; [|split; [|split]]]].
  - intros p delta r. exact (useFrame_time noise3D p delta r).
  - intros p delta r Hd Hs.
    rewrite (useFrame_time noise3D p delta r). at_R. nra.
  - intros delta m i inst Hm. eexists. split.
    + rewrite tick_lookup, Hm. reflexivity.
    + cbn [inst_refs inst_props].
      exact (useFrame_time noise3D _ delta _).
  - intros fp m i inst Hi Hm. eexists. split.
    + now apply render_lookup_lt.
    + now apply instanceFor_kept.
  - intros fp m i Hi Hm. eexists. split.
    + now apply render_lookup_lt.
    + rewrite instanceFor_new by exact Hm. reflexivity.
  - intros fp size m0 deltas i inst m Hm.
    assert (Hi : (i < petalCount fp)%nat).
    { destruct (Nat.lt_ge_cases i (petalCount fp)) as [Hlt|Hge]; [exact Hlt|].
      unfold m in Hm.
      rewrite runTicks_lookup_None in Hm; [discriminate|].
      now apply render_lookup_ge. }
    eexists. split.
    + apply render_lookup_lt. exact Hi.
    + f_equal. now apply instanceFor_kept.
Qed.

(** ** The claim on the layout *)

Lemma petalElement_angle fp i :
  rotation (props (petalElement fp i)) =
  (0, 0, Spec.layoutAngle (petalCount fp) i).
Proof.
  unfold petalElement, Spec.layoutAngle. cbn [props rotation]. at_R.
  f_equal. ring.
Qed.

(** Over exact arithmetic: for petalCount N >= 1 the layout has N
    placements; placement i has angle (i / N) * 2 pi, position
    (cos angle * petalSize * 0.5, sin angle * petalSize * 0.5, 0),
    rotation angle about z and scale petalSize * 0.2 on the three axes;
    the angles start at 0 and are 2 pi / N apart; petalCount = 1 gives
    one placement at angle 0. *)
Lemma layout_exact fp :
  (1 <= petalCount fp)%nat ->
  let N := petalCount fp in
  length (Flower fp) = N /\
  (forall i, (i < N)%nat ->
     let angle := Spec.layoutAngle N i in
     exists e, Flower fp !! i = Some e /\ key e = i /\
       position (props e) =
         (cos angle * petalSize fp * 0.5, sin angle * petalSize fp * 0.5, 0) /\
       rotation (props e) = (0, 0, angle) /\
       scale (props e) =
         (petalSize fp * 0.2, petalSize fp * 0.2, petalSize fp * 0.2)) /\
  Spec.layoutAngle N 0 = 0 /\
  (forall i, Spec.layoutAngle N (S i) - Spec.layoutAngle N i =
             2 * PI / INR N) /\
  (N = 1%nat ->
   exists e, Flower fp = [e] /\ rotation (props e) = (0, 0, 0)).
Proof.
  intros HN N. split; [apply length_Flower|].
  split; [|split; [|split]].
  - intros i Hi angle. exists (petalElement fp i).
    split; [now apply Flower_lookup|]. split; [reflexivity|].
    pose proof (petalElement_angle fp i) as Ha.
    split; [|split; [exact Ha|reflexivity]].
    unfold petalElement in *. cbn [props rotation position] in *. at_R.
    injection Ha as Ha. now rewrite Ha.
  - unfold Spec.layoutAngle. cbn [INR]. unfold Rdiv. ring.
  - intros i. unfold Spec.layoutAngle. rewrite S_INR. unfold Rdiv. ring.
  - intros H1. exists (petalElement fp 0). split.
    + rewrite Flower_fmap. fold N. now rewrite H1.
    + rewrite petalElement_angle. fold N. rewrite H1.
      unfold Spec.layoutAngle. cbn [INR]. unfold Rdiv.
      f_equal. ring.
Qed.

End RealFacts.

(** * Facts over IEEE-754 doubles *)

Section IEEEFacts.
Variables f64_cos f64_sin : spec_float -> spec_float.
Variable noise3D : spec_float -> spec_float -> spec_float -> spec_float.
Local Abbreviation F64 := (F64_JsNumber f64_cos f64_sin).

Lemma f64_sub_nan_l y : SFsub f64_prec f64_emax S754_nan y = S754_nan.
Proof. reflexivity. Qed.

Lemma f64_mul_nan_l y : SFmul f64_prec f64_emax S754_nan y = S754_nan.
Proof. reflexivity. Qed.

Lemma f64_mul_nan_r x : SFmul f64_prec f64_emax x S754_nan = S754_nan.
Proof. now destruct x. Qed.

Lemma f64_add_nan_r x : SFadd f64_prec f64_emax x S754_nan = S754_nan.
Proof. now destruct x. Qed.

(** A NaN elongation makes the elongated y NaN, whatever y is. *)
Lemma applyElongation_nan p x y z :
  is_nan (elongation p) = true ->
  coord_y (@applyElongation _ F64 p (x, y, z)) = S754_nan.
Proof.
  intros He. destruct (elongation p) eqn:E; try discriminate.
  unfold applyElongation, coord_y. cbn [fst snd]. rewrite E.
  cbn [num_add num_sub num_mul Math_abs num_of_nat F64_JsNumber].
  now rewrite f64_sub_nan_l, f64_mul_nan_l, f64_add_nan_r, f64_mul_nan_r.
Qed.

(** C3, as amended. The frame uses the props as they come, with no test
    for NaN or infinity and no replacement value: a frame is still
    produced, with the vertex count of the base mesh, and a NaN
    elongation makes the y written for every vertex NaN. *)
Theorem C3_nan_elongation_reaches_every_vertex p delta r k :
  refs_ok k r = true ->
  is_nan (elongation p) = true ->
  let r' := @useFrame _ F64 noise3D p delta r in
  refs_ok k r' = true /\
  length (deformedMesh r') = length (baseMesh r) /\
  forall i, (i < k)%nat ->
    is_nan (coord_y (@readVertex _ F64 (deformedMesh r') i)) = true.
Proof.
  intros Hok He r'.
  pose proof (@useFrame_deformedMesh _ F64 noise3D p delta r k Hok) as Hd.
  destruct (refs_ok_inv k r Hok) as (array & _ & _ & Hb).
  split; [now apply useFrame_ok|]. fold r' in Hd. split.
  - now rewrite Hd, length_deformedArray, Hb.
  - intros i Hi. rewrite Hd, readVertex_deformedArray by exact Hi.
    rewrite deformVertex_y.
    destruct (applyNoise noise3D p _ (readVertex (baseMesh r) i))
      as [[x y] z].
    now rewrite applyElongation_nan.
Qed.

End IEEEFacts.

(** * The claims that fail as stated, at concrete inputs *)

Section Counterexamples.
Local Open Scope R_scope.

Lemma probeNoise_at_1 x y z :
  (x + y + z = 1)%R -> probeNoise x y z = 0.5%R.
Proof. intros Hs. unfold probeNoise. rewrite Hs. lra. Qed.

(** With neutral shape factors the first vertex, (1, 0, 0), of the
    two-vertex petal moves by the noise offset. *)
Lemma neutral_first_vertex_moves ns sp delta t :
  (1 * ns + 0 * ns + (t + delta * sp) = 1)%R ->
  deformedMesh (useFrame probeNoise (neutralProps ns sp) delta
                  (twoVertexRefs t)) <>
  baseMesh (twoVertexRefs t).
Proof.
  intros Hs Heq.
  rewrite (useFrame_deformedMesh probeNoise (neutralProps ns sp) delta
             (twoVertexRefs t) 2 eq_refl) in Heq.
  apply (f_equal (fun l => readVertex l 0)) in Heq.
  rewrite readVertex_deformedArray in Heq by lia.
  change (readVertex (baseMesh (twoVertexRefs t)) 0)
    with (1%R, 0%R, 0%R) in Heq.
  rewrite neutral_deformVertex in Heq by reflexivity.
  cbv zeta in Heq. injection Heq as Hx _ _.
  rewrite probeNoise_at_1 in Hx by exact Hs. lra.
Qed.

(** C2 fails as stated: with elongation 1, compression 1, twist 0 the
    deformed mesh differs from the base mesh both for noiseScale = 0 (at
    phase 1) and for noiseSpeed = 0 at phase 0 (with noiseScale 1). *)
Lemma C2_counterexample :
  deformedMesh (useFrame probeNoise (neutralProps 0 1) 0 (twoVertexRefs 1))
    <> baseMesh (twoVertexRefs 1) /\
  deformedMesh (useFrame probeNoise (neutralProps 1 0) 1 (twoVertexRefs 0))
    <> baseMesh (twoVertexRefs 0).
Proof.
  split; apply neutral_first_vertex_moves; lra.
Qed.

(** C3 fails as stated: with elongation NaN, a vertex (1, 1, 1) and a
    noise field that is 0 everywhere, the y written is NaN. *)
Lemma C3_counterexample :
  ~ (forall f64_cos f64_sin noise3D p delta r k j,
       refs_ok k r = true ->
       shape_finite p = false ->
       (j < 3 * k)%nat ->
       is_nan (@read _ (F64_JsNumber f64_cos f64_sin)
                 (deformedMesh
                    (@useFrame _ (F64_JsNumber f64_cos f64_sin) noise3D
                       p delta r)) j) = false).
Proof.
  intros Hclaim.
  specialize (Hclaim (fun x => x) (fun x => x) flatNoise nanElongationProps
                (f64_of_Z 0) oneVertexRefs 1%nat 1%nat
                eq_refl eq_refl ltac:(lia)).
  vm_compute in Hclaim. discriminate.
Qed.

End Counterexamples.

(** * The theorems at concrete inputs *)

Section Witnesses.
Local Open Scope R_scope.

Lemma C1_witness :
  refs_ok 2 (twoVertexRefs 0) = true /\ (1 < 2)%nat /\
  let r' := useFrame probeNoise twistedProps 1 (twoVertexRefs 0) in
  readVertex (deformedMesh r') 1 =
  Spec.advanceVertex probeNoise (elongation twistedProps)
    (compression twistedProps) (twist twistedProps)
    (noiseScale twistedProps) (time_current r')
    (readVertex (baseMesh (twoVertexRefs 0)) 1).
Proof.
  split; [reflexivity|]. split; [lia|].
  apply (C1_advance_applies_the_four_stages probeNoise twistedProps 1
           (twoVertexRefs 0) 2 1); [reflexivity|lia].
Defined.

Lemma C2_witness :
  refs_ok 2 (twoVertexRefs 0) = true /\
  elongation (neutralProps 1 0.5) = 1 /\
  compression (neutralProps 1 0.5) = 1 /\
  twist (neutralProps 1 0.5) = 0 /\
  forall x y z,
    readVertex (baseMesh (twoVertexRefs 0)) 1 = (x, y, z) ->
    readVertex
      (deformedMesh
         (useFrame probeNoise (neutralProps 1 0.5) 1 (twoVertexRefs 0))) 1 =
    (x + probeNoise (x * 1) (y * 1) (0 + 1 * 0.5) * 0.2,
     y + probeNoise (x * 1) (y * 1) (0 + 1 * 0.5) * 0.2,
     z + probeNoise (x * 1) (y * 1) (0 + 1 * 0.5) * 0.2).
Proof.
  split; [reflexivity|]. do 3 (split; [reflexivity|]).
  intros x y z Hv.
  apply (proj1 (C2_neutral_shape_leaves_the_noise_offset probeNoise
                  (neutralProps 1 0.5) 1 (twoVertexRefs 0) 2
                  eq_refl eq_refl eq_refl eq_refl) 1%nat x y z);
    [lia|exact Hv].
Defined.

Lemma C3_witness :
  refs_ok 1 oneVertexRefs = true /\
  is_nan (elongation nanElongationProps) = true /\
  is_nan
    (coord_y
       (@readVertex _ (F64_JsNumber (fun x => x) (fun x => x))
          (deformedMesh
             (@useFrame _ (F64_JsNumber (fun x => x) (fun x => x)) flatNoise
                nanElongationProps (f64_of_Z 0) oneVertexRefs)) 0)) = true.
Proof.
  split; [reflexivity|]. split; [reflexivity|].
  apply (proj2 (proj2 (C3_nan_elongation_reaches_every_vertex
                         (fun x => x) (fun x => x) flatNoise
                         nanElongationProps (f64_of_Z 0) oneVertexRefs 1
                         eq_refl eq_refl))).
  lia.
Defined.

Lemma C5_witness :
  refs_ok 2 (twoVertexRefs 0) = true /\
  deformedMesh
    (useFrame probeNoise twistedProps 0
       (useFrame probeNoise twistedProps 1 (twoVertexRefs 0))) =
  deformedMesh (useFrame probeNoise twistedProps 1 (twoVertexRefs 0)).
Proof.
  split; [reflexivity|].
  apply (C5_frames_recompute_from_the_base probeNoise twistedProps 1
           (twoVertexRefs 0) 2 eq_refl).
Defined.

Lemma C6_witness :
  0 < 1 /\ 0 <= noiseSpeed twistedProps /\
  time_current (twoVertexRefs 0) <=
  time_current (useFrame probeNoise twistedProps 1 (twoVertexRefs 0)).
Proof.
  assert (H1 : 0 < 1) by lra.
  assert (H2 : 0 <= noiseSpeed twistedProps) by (cbn; lra).
  split; [exact H1|]. split; [exact H2|].
  apply (proj1 (proj2 (C6_phase_accumulates_and_persists probeNoise [])));
    assumption.
Defined.

Lemma C7_witness :
  0 < elongation shortenedProps /\ Rabs 1 <= 2 /\
  elongation shortenedProps < 1 /\
  Rabs (coord_y (applyElongation shortenedProps (0, 1, 0))) <= Rabs 1.
Proof.
  assert (H0 : 0 < elongation shortenedProps) by (cbn; lra).
  assert (H1 : Rabs 1 <= 2) by (rewrite Rabs_R1; lra).
  assert (H2 : elongation shortenedProps < 1) by (cbn; lra).
  split; [exact H0|]. split; [exact H1|]. split; [exact H2|].
  apply (proj2 (proj2 (C7_elongation_monotone shortenedProps 0 1 0 H0 H1))).
  exact H2.
Defined.

Lemma C8_witness :
  twist untwistedProps = 0 /\
  deformVertex probeNoise untwistedProps 1 (1, 0, 0) =
  applyCompression untwistedProps
    (applyElongation untwistedProps
       (applyNoise probeNoise untwistedProps 1 (1, 0, 0))).
Proof.
  split; [reflexivity|].
  apply (C8_twist_zero_is_identity probeNoise untwistedProps 1 (1, 0, 0)).
  reflexivity.
Defined.

Lemma C9_witness :
  refs_ok 2 (twoVertexRefs 0) = true /\
  length
    (deformedMesh
       (useFrame probeNoise untwistedProps 1
          (runFrames probeNoise [(twistedProps, 1)] (twoVertexRefs 0)))) =
  length (baseMesh (twoVertexRefs 0)).
Proof.
  split; [reflexivity|].
  apply (C9_vertex_count_and_order probeNoise [(twistedProps, 1)]
           untwistedProps 1 (twoVertexRefs 0) 2 eq_refl).
Defined.

Lemma C10_witness :
  refs_ok 2 (twoVertexRefs 0) = true /\ (1 < 2)%nat /\
  elongation twistedProps = elongation untwistedProps /\
  noiseScale twistedProps = noiseScale untwistedProps /\
  noiseSpeed twistedProps = noiseSpeed untwistedProps /\
  coord_y
    (readVertex
       (deformedMesh (useFrame probeNoise twistedProps 1 (twoVertexRefs 0)))
       1) =
  coord_y
    (readVertex
       (deformedMesh (useFrame probeNoise untwistedProps 1 (twoVertexRefs 0)))
       1).
Proof.
  split; [reflexivity|]. split; [lia|]. do 3 (split; [reflexivity|]).
  apply (C10_y_ignores_compression_and_twist probeNoise twistedProps
           untwistedProps 1 (twoVertexRefs 0) 2 1);
    [reflexivity|lia|reflexivity|reflexivity|reflexivity].
Defined.

End Witnesses.

(** * Further facts: renders, frames and the application *)

Section RenderFacts.
Context {num : Type} `{JsNumber num}.
Variable noise3D : num -> num -> num -> num.
Variable sphereGeometry : list num.
Implicit Types (p : @PetalProps num) (r : @PetalRefs num).
Implicit Types (fp : @FlowerProps num) (m : gmap nat (@Instance num)).
Implicit Types (st : @AppState num) (ev : @Event num).

Lemma instanceFor_props m (e : @Element num) :
  inst_props (instanceFor sphereGeometry m e) = props e.
Proof. unfold instanceFor. now destruct (m !! key e). Qed.

Lemma render_size fp m : size (render sphereGeometry fp m) = petalCount fp.
Proof.
  unfold render, reconcile. rewrite map_size_list_to_map.
  - now rewrite length_fmap, length_Flower.
  - rewrite Flower_fmap, reconcile_keys. apply NoDup_seq.
Qed.

(** X1. While no mesh is attached, frames neither deform nor capture
    anything: over any run of frames the mesh ref stays empty and the
    captured positions stay what they were. *)
Theorem X1_unattached_frames_touch_no_geometry frames r :
  meshRef_current r = None ->
  meshRef_current (runFrames noise3D frames r) = None /\
  initialPositions_current (runFrames noise3D frames r) =
  initialPositions_current r.
Proof.
  revert r. induction frames as [|[p delta] frames IH]; intros r Hm.
  - now split.
  - cbn [runFrames foldl fst snd].
    assert (Hstep : meshRef_current (useFrame noise3D p delta r) = None /\
                    initialPositions_current (useFrame noise3D p delta r) =
                    initialPositions_current r)
      by (unfold useFrame; rewrite Hm; now split).
    destruct Hstep as [Hm' Hi'].
    destruct (IH _ Hm') as [IHm IHi]. split; [exact IHm|].
    unfold runFrames in IHi. now rewrite IHi.
Qed.

(** X2. After a render the live petals are exactly the keys
    [0 .. petalCount - 1]: there are petalCount of them, and none when
    petalCount is 0, whatever instances existed before. *)
Theorem X2_render_keeps_exactly_petalCount_petals fp m :
  size (render sphereGeometry fp m) = petalCount fp /\
  (forall i, is_Some (render sphereGeometry fp m !! i) <->
             (i < petalCount fp)%nat) /\
  (petalCount fp = 0%nat -> render sphereGeometry fp m = ∅).
Proof.
  split; [apply render_size|]. split.
  - intros i. destruct (Nat.lt_ge_cases i (petalCount fp)) as [Hlt|Hge].
    + rewrite render_lookup_lt by exact Hlt. split; [easy|eauto].
    + rewrite render_lookup_ge by exact Hge.
      split; [intros [? ?]; discriminate|lia].
  - intros H0. apply map_size_empty_inv. now rewrite render_size.
Qed.

(** X3. A render that did not drop a petal leaves no trace: rendering
    with [fp2] after a render with [fp1] that has at least as many petals
    gives the same instances as rendering with [fp2] directly.  In
    particular a render is idempotent. *)
Theorem X3_render_absorbs_earlier_render fp1 fp2 m :
  (petalCount fp2 <= petalCount fp1)%nat ->
  render sphereGeometry fp2 (render sphereGeometry fp1 m) =
  render sphereGeometry fp2 m.
Proof.
  intros Hle. apply map_eq. intros i.
  destruct (Nat.lt_ge_cases i (petalCount fp2)) as [Hlt|Hge].
  - rewrite !render_lookup_lt by exact Hlt. f_equal.
    unfold instanceFor at 1. cbn [key petalElement].
    rewrite render_lookup_lt by lia.
    unfold instanceFor. cbn [key petalElement].
    now destruct (m !! i).
  - now rewrite !render_lookup_ge by exact Hge.
Qed.

(** X4. A petal that was dropped by a render with fewer petals and is
    rendered again is a new one: phase 0, nothing captured, the fresh
    sphere geometry, whatever it had accumulated before. *)
Theorem X4_dropped_petal_restarts fp1 fp2 m i :
  (petalCount fp1 <= i)%nat ->
  (i < petalCount fp2)%nat ->
  render sphereGeometry fp2 (render sphereGeometry fp1 m) !! i =
  Some (mount sphereGeometry (petalElement fp2 i)).
Proof.
  intros Hge Hlt. rewrite render_lookup_lt by exact Hlt.
  f_equal. apply instanceFor_new. cbn [key petalElement].
  now apply render_lookup_ge.
Qed.

(** X5. New props act at the very next frame and on the phase gathered
    so far: after a render with [fp] and one frame, petal [i] carries the
    props of [fp] and its phase has grown by delta times the noiseSpeed of
    [fp]. *)
Theorem X5_next_frame_uses_the_new_props fp m delta i :
  (i < petalCount fp)%nat ->
  exists inst',
    tick noise3D delta (render sphereGeometry fp m) !! i = Some inst' /\
    inst_props inst' = props (petalElement fp i) /\
    time_current (inst_refs inst') =
    (time_current (inst_refs (instanceFor sphereGeometry m (petalElement fp i)))
     + delta * flower_noiseSpeed fp)%js.
Proof.
  intros Hlt. eexists. split; [|split].
  - rewrite tick_lookup, render_lookup_lt by exact Hlt. reflexivity.
  - cbn [inst_props]. apply instanceFor_props.
  - cbn [inst_refs inst_props]. rewrite useFrame_time, instanceFor_props.
    reflexivity.
Qed.

(** ** The application as a state machine *)

Lemma rerender_ok fp st k :
  length sphereGeometry = (3 * k)%nat ->
  (forall i inst, app_petals st !! i = Some inst ->
                  refs_ok k (inst_refs inst) = true) ->
  app_ok k (rerender sphereGeometry fp st).
Proof.
  intros Hlen Hrefs. split; [apply render_size|].
  intros i. cbn [rerender app_petals app_state].
  destruct (Nat.lt_ge_cases i (petalCount fp)) as [Hlt|Hge].
  - rewrite render_lookup_lt by exact Hlt.
    split; [exact Hlt|]. split; [apply instanceFor_props|].
    unfold instanceFor. cbn [key petalElement].
    destruct (app_petals st !! i) as [inst|] eqn:Hi.
    + cbn [inst_refs]. now apply (Hrefs i).
    + now apply mount_ok.
  - now rewrite render_lookup_ge by exact Hge.
Qed.

Lemma app_ok_refs st k i inst :
  app_ok k st -> app_petals st !! i = Some inst ->
  (i < petalCount (app_state st))%nat /\
  inst_props inst = props (petalElement (app_state st) i) /\
  refs_ok k (inst_refs inst) = true.
Proof. intros [_ Hall] Hi. specialize (Hall i). now rewrite Hi in Hall. Qed.

Lemma App_step_ok ev st k :
  length sphereGeometry = (3 * k)%nat ->
  app_ok k st -> app_ok k (App_step noise3D sphereGeometry ev st).
Proof.
  intros Hlen Hok.
  assert (Hrefs : forall i inst, app_petals st !! i = Some inst ->
                                 refs_ok k (inst_refs inst) = true)
    by (intros i inst Hi; now apply (app_ok_refs st k i inst Hok)).
  destruct ev; try (now apply rerender_ok).
  destruct Hok as [Hsize Hall]. split.
  - cbn [App_step app_petals app_state]. unfold tick.
    now rewrite map_size_fmap.
  - intros i. cbn [App_step app_petals app_state].
    rewrite tick_lookup. specialize (Hall i).
    destruct (app_petals st !! i) as [inst|]; [|exact Hall].
    destruct Hall as (Hlt & Hp & Hr). cbn [fmap option_fmap option_map].
    cbn [inst_props inst_refs]. split; [exact Hlt|]. split; [exact Hp|].
    now apply useFrame_ok.
Qed.

(** X6. Whatever the controls and the frame clock do after the first
    render, the live petals match the state of [App]: there are petalCount
    of them, keyed [0 .. petalCount - 1], each holds the props that
    [Flower] computes from the current state for its index, and each has a
    mesh (and captured base, once taken) of the size of the sphere
    geometry. *)
Theorem X6_petals_follow_the_app_state events k :
  length sphereGeometry = (3 * k)%nat ->
  app_ok k (App_run noise3D sphereGeometry events
              (App_start sphereGeometry)).
Proof.
  intros Hlen.
  assert (Hstart : app_ok k (App_start sphereGeometry)).
  { apply rerender_ok; [exact Hlen|].
    intros i inst Hi. cbn [app_petals] in Hi.
    rewrite lookup_empty in Hi. discriminate. }
  generalize dependent (App_start sphereGeometry).
  induction events as [|ev events IH]; intros st Hok; [exact Hok|].
  apply IH. now apply App_step_ok.
Qed.

(** X7. A change of petalSize, elongation, compression, twist, noiseScale,
    noiseSpeed or color keeps every live petal and its refs: phase,
    captured base and mesh are as before; only a change of petalCount can
    drop or create petals, and only a frame changes refs. *)
Theorem X7_controls_keep_the_refs ev st k i inst :
  app_ok k st ->
  app_petals st !! i = Some inst ->
  (forall n, ev <> ChangePetalCount n) ->
  (forall delta, ev <> AnimationFrame delta) ->
  exists inst',
    app_petals (App_step noise3D sphereGeometry ev st) !! i = Some inst' /\
    inst_refs inst' = inst_refs inst.
Proof.
  intros Hok Hi Hcount Hframe.
  destruct (app_ok_refs st k i inst Hok Hi) as (Hlt & _ & _).
  destruct ev as [n| | | | | | | |delta];
    [now destruct (Hcount n)| | | | | | | |now destruct (Hframe delta)];
    (eexists; split;
     [cbn [App_step rerender app_petals];
      apply render_lookup_lt; exact Hlt
     |now apply instanceFor_kept]).
Qed.

End RenderFacts.

(** * Further facts over the real numbers *)

Section ShapeFacts.
Local Open Scope R_scope.
Variable noise3D : R -> R -> R -> R.
Implicit Types (p : @PetalProps R) (r : @PetalRefs R) (v : @Vec3 R).
Implicit Types (fp : @FlowerProps R).

Ltac at_R :=
  cbn [num_add num_sub num_mul num_div Math_abs Math_cos Math_sin Math_PI
       num_of_nat lit_0_2 lit_0_5 R_JsNumber INR] in *.

Lemma cos_sin_square a : cos a * cos a + sin a * sin a = 1.
Proof. pose proof (sin2_cos2 a) as Hs. unfold Rsqr in Hs. lra. Qed.

(** X8. The phase after a run of frames is the phase before plus the sum
    of delta * noiseSpeed over the frames, each with the noiseSpeed in
    force at that frame; it does not decrease when no delta and no
    noiseSpeed is negative. *)
Theorem X8_phase_is_the_sum_of_the_gains frames r :
  time_current (runFrames noise3D frames r) =
  time_current r + phaseGain frames /\
  (Forall (fun f => 0 <= snd f /\ 0 <= noiseSpeed (fst f)) frames ->
   time_current r <= time_current (runFrames noise3D frames r)).
Proof.
  assert (Hsum : forall fs r0,
            time_current (runFrames noise3D fs r0) =
            time_current r0 + phaseGain fs).
  { induction fs as [|[p delta] fs IH]; intros r0.
    - cbn. lra.
    - cbn [runFrames foldl fst snd phaseGain foldr].
      fold (runFrames noise3D fs (useFrame noise3D p delta r0)).
      rewrite IH, (useFrame_time noise3D p delta r0). at_R.
      fold (phaseGain fs). lra. }
  split; [apply Hsum|].
  intros Hpos. rewrite Hsum.
  assert (0 <= phaseGain frames); [|lra].
  induction Hpos as [|[p delta] fs [Hd Hs] _ IH]; cbn; [lra|].
  cbn [fst snd] in *. fold (phaseGain fs). nra.
Qed.

(** The twist block keeps the distance from the y axis, and y. *)
Lemma applyTwist_radius p a b c :
  let '(a', b', c') := applyTwist p (a, b, c) in
  a' * a' + c' * c' = a * a + c * c /\ b' = b.
Proof.
  unfold applyTwist. at_R. split; [|reflexivity].
  set (t := b * twist p * PI * (1 + 1)).
  transitivity ((a * a + c * c) * (cos t * cos t + sin t * sin t));
    [ring|rewrite cos_sin_square; ring].
Qed.

Lemma deformVertex_radius p time v :
  let '(x1, y1, z1) := applyElongation p (applyNoise noise3D p time v) in
  let factor := 1 + (compression p - 1) * (1 - Rabs y1) in
  let '(x2, y2, z2) := deformVertex noise3D p time v in
  x2 * x2 + z2 * z2 = factor * factor * (x1 * x1 + z1 * z1) /\ y2 = y1.
Proof.
  unfold deformVertex.
  destruct (applyElongation p (applyNoise noise3D p time v))
    as [[x1 y1] z1].
  unfold applyCompression. at_R. cbv zeta.
  pose proof (applyTwist_radius p
                (x1 * (1 + (compression p - 1) * (1 - Rabs y1))) y1
                (z1 * (1 + (compression p - 1) * (1 - Rabs y1)))) as Htw.
  destruct (applyTwist p _) as [[x2 y2] z2].
  destruct Htw as [Hr Hy]. split; [rewrite Hr; ring|exact Hy].
Qed.

(** X9. The twist is a rotation about the y axis and the compression a
    scaling towards it: the twist block keeps x^2 + z^2 and y, and the
    squared distance from the y axis of a written vertex is the squared
    compression factor times that of the vertex after noise and
    elongation, whatever the twist. *)
Theorem X9_distance_from_the_axis p time x y z :
  (forall a b c,
     let '(a', b', c') := applyTwist p (a, b, c) in
     a' * a' + c' * c' = a * a + c * c /\ b' = b) /\
  let '(x1, y1, z1) := applyElongation p (applyNoise noise3D p time (x, y, z)) in
  let factor := 1 + (compression p - 1) * (1 - Rabs y1) in
  let '(x2, y2, z2) := deformVertex noise3D p time (x, y, z) in
  x2 * x2 + z2 * z2 = factor * factor * (x1 * x1 + z1 * z1) /\ y2 = y1.
Proof.
  split; [apply applyTwist_radius|apply deformVertex_radius].
Qed.

(** X10. The profile of the compression: it leaves a vertex with
    |y| = 1 where it is, scales x and z of a vertex with y = 0 by exactly
    [compression], and does nothing at all when [compression] is 1. *)
Theorem X10_compression_profile p x y z :
  (Rabs y = 1 -> applyCompression p (x, y, z) = (x, y, z)) /\
  (y = 0 ->
   applyCompression p (x, y, z) = (x * compression p, 0, z * compression p)) /\
  (compression p = 1 -> applyCompression p (x, y, z) = (x, y, z)).
Proof.
  unfold applyCompression. at_R. split; [|split].
  - intros ->. f_equal; [f_equal|]; ring.
  - intros ->. rewrite Rabs_R0. f_equal; [f_equal|]; ring.
  - intros ->. f_equal; [f_equal|]; ring.
Qed.

(** X11. The profile of the elongation: y = 0 stays 0, a vertex with
    |y| = 1 gets y * elongation, elongation 1 changes nothing, x and z are
    never touched, and mirrored inputs give mirrored outputs. *)
Theorem X11_elongation_profile p x y z :
  applyElongation p (x, 0, z) = (x, 0, z) /\
  (Rabs y = 1 -> applyElongation p (x, y, z) = (x, y * elongation p, z)) /\
  (elongation p = 1 -> applyElongation p (x, y, z) = (x, y, z)) /\
  (exists y', applyElongation p (x, y, z) = (x, y', z) /\
              applyElongation p (x, - y, z) = (x, - y', z)).
Proof.
  unfold applyElongation. at_R. split; [|split; [|split]].
  - f_equal. f_equal. ring.
  - intros ->. f_equal. f_equal. ring.
  - intros ->. f_equal. f_equal. ring.
  - eexists. split; [reflexivity|]. rewrite Rabs_Ropp.
    f_equal. f_equal. ring.
Qed.

(** X12. With noiseSpeed 0 the animation stands still: every later frame
    with the same props writes the array the first one wrote, whatever
    the deltas. *)
Theorem X12_zero_noiseSpeed_freezes_the_mesh p r k delta deltas :
  refs_ok k r = true ->
  noiseSpeed p = 0 ->
  deformedMesh
    (runFrames noise3D ((fun d => (p, d)) <$> deltas)
       (useFrame noise3D p delta r)) =
  deformedMesh (useFrame noise3D p delta r).
Proof.
  intros Hok Hs.
  assert (Hone : forall r0 d,
            refs_ok k r0 = true ->
            deformedMesh (useFrame noise3D p d r0) =
            deformedArray noise3D p (time_current r0) (baseMesh r0) k /\
            time_current (useFrame noise3D p d r0) = time_current r0).
  { intros r0 d Hok0. rewrite (useFrame_deformedMesh _ _ _ _ k Hok0).
    rewrite (useFrame_time noise3D p d r0). at_R. rewrite Hs.
    rewrite !Rmult_0_r, !Rplus_0_r. now split. }
  assert (Hall : forall ds r0,
            refs_ok k r0 = true -> ds <> [] ->
            deformedMesh (runFrames noise3D ((fun d => (p, d)) <$> ds) r0) =
            deformedArray noise3D p (time_current r0) (baseMesh r0) k).
  { induction ds as [|d ds IH]; intros r0 Hok0 Hne; [congruence|].
    cbn [fmap list_fmap runFrames foldl fst snd].
    destruct ds as [|d' ds'].
    - cbn. now apply Hone.
    - fold (runFrames noise3D ((fun d => (p, d)) <$> (d' :: ds'))
              (useFrame noise3D p d r0)).
      rewrite IH by (try apply useFrame_ok; easy).
      destruct (Hone r0 d Hok0) as [_ ->].
      now rewrite (useFrame_baseMesh _ _ _ _ k Hok0). }
  destruct deltas as [|d ds]; [reflexivity|].
  rewrite Hall by (try apply useFrame_ok; easy).
  destruct (Hone r delta Hok) as [-> ->].
  now rewrite (useFrame_baseMesh _ _ _ _ k Hok).
Qed.

Lemma Rabs_le_bounds a b : Rabs a <= b -> - b <= a <= b.
Proof. unfold Rabs. destruct (Rcase_abs a); lra. Qed.

Lemma square_bound a b : - b <= a <= b -> 0 <= a * a <= b * b.
Proof. intros Hab. split; nra. Qed.

(** X13. Inside the ranges of the controls the geometry stays bounded:
    for a base vertex with coordinates in [-1, 1], a noise sample in
    [-1, 1], and elongation and compression in [0.5, 2], the written y is
    at most 2.64 in size and the written x and z satisfy
    x^2 + z^2 <= 11.52, for every twist, noiseScale and phase. *)
Theorem X13_geometry_stays_bounded p time x y z :
  Rabs x <= 1 -> Rabs y <= 1 -> Rabs z <= 1 ->
  Rabs (noise3D (x * noiseScale p) (y * noiseScale p) time) <= 1 ->
  0.5 <= elongation p <= 2 ->
  0.5 <= compression p <= 2 ->
  let '(x2, y2, z2) := deformVertex noise3D p time (x, y, z) in
  Rabs y2 <= 2.64 /\ x2 * x2 + z2 * z2 <= 11.52.
Proof.
  intros Hx Hy Hz Hn He Hc.
  pose proof (deformVertex_radius p time (x, y, z)) as Hrad.
  unfold applyNoise, applyElongation in Hrad. at_R. cbv zeta in Hrad.
  set (n := noise3D (x * noiseScale p) (y * noiseScale p) time * 0.2) in *.
  destruct (deformVertex noise3D p time (x, y, z)) as [[x2 y2] z2].
  destruct Hrad as [Hr Hy2].
  apply Rabs_le_bounds in Hx, Hy, Hz, Hn.
  assert (Hn' : -0.2 <= n <= 0.2) by (unfold n; lra).
  assert (HA : 0 <= Rabs (y + n) <= 1.2)
    by (split; [apply Rabs_pos|apply Rabs_le; lra]).
  set (A := Rabs (y + n)) in *.
  assert (Hg : 0.4 <= 1 + (elongation p - 1) * A <= 2.2) by nra.
  assert (HB : Rabs y2 <= 2.64).
  { rewrite Hy2, Rabs_mult. fold A.
    rewrite (Rabs_pos_eq (1 + _)) by lra. nra. }
  split; [exact HB|].
  rewrite Hr, <- Hy2.
  pose proof (Rabs_pos y2) as HB0.
  set (f := 1 + (compression p - 1) * (1 - Rabs y2)).
  assert (Hf : -0.64 <= f <= 2) by (unfold f; nra).
  assert (Hff : 0 <= f * f <= 2 * 2) by (apply square_bound; lra).
  assert (Hxx : 0 <= (x + n) * (x + n) <= 1.2 * 1.2)
    by (apply square_bound; lra).
  assert (Hzz : 0 <= (z + n) * (z + n) <= 1.2 * 1.2)
    by (apply square_bound; lra).
  set (F := f * f) in *.
  set (S := (x + n) * (x + n) + (z + n) * (z + n)).
  assert (HS : 0 <= S <= 2.88) by (unfold S; lra).
  assert (F * S <= 4 * 2.88) by (apply Rmult_le_compat; lra).
  lra.
Qed.

(** ** The layout *)

Lemma Flower_lookup_inv fp i e :
  Flower fp !! i = Some e ->
  (i < petalCount fp)%nat /\ e = petalElement fp i.
Proof.
  rewrite Flower_fmap, list_lookup_fmap. intros He.
  destruct (seq 0 (petalCount fp) !! i) as [j|] eqn:Hj; [|discriminate].
  apply lookup_seq in Hj as [-> Hlt]. cbn in He.
  split; [exact Hlt|congruence].
Qed.

Lemma ratio_lt i j N :
  (i < j)%nat -> (0 < N)%nat -> INR i / INR N < INR j / INR N.
Proof.
  intros Hij HN. apply lt_INR in Hij. apply lt_INR in HN. cbn in HN.
  unfold Rdiv. apply Rmult_lt_compat_r; [|exact Hij].
  now apply Rinv_0_lt_compat.
Qed.

Lemma ratio_unit N : (0 < N)%nat -> INR N / INR N = 1.
Proof.
  intros HN. apply lt_INR in HN. cbn in HN. unfold Rdiv.
  apply Rinv_r. lra.
Qed.

(** X14. Over exact arithmetic, every petal sits on the circle of radius
    petalSize * 0.5 about the origin of the plane z = 0.  (In doubles the
    circle equation holds up to rounding only; z = 0 is exact.) *)
Theorem X14_petals_sit_on_a_circle fp i e :
  Flower fp !! i = Some e ->
  let '(x, y, z) := position (props e) in
  x * x + y * y = (petalSize fp * 0.5) * (petalSize fp * 0.5) /\ z = 0.
Proof.
  intros [_ ->]%Flower_lookup_inv.
  unfold petalElement. cbn [props position]. at_R.
  split; [|reflexivity].
  set (a := INR i / INR (petalCount fp) * PI * (1 + 1)).
  transitivity ((petalSize fp * 0.5) * (petalSize fp * 0.5) *
                (cos a * cos a + sin a * sin a));
    [ring|rewrite cos_sin_square; ring].
Qed.

(** X15. The rotation of a petal is about z only, its angle lies in
    [0, 2 pi), and the angles grow strictly with the index: no two petals
    share an angle. *)
Theorem X15_angles_increase_within_one_turn fp i e :
  Flower fp !! i = Some e ->
  exists a,
    rotation (props e) = (0, 0, a) /\ 0 <= a < 2 * PI /\
    forall j e', (i < j)%nat -> Flower fp !! j = Some e' ->
      exists a', rotation (props e') = (0, 0, a') /\ a < a'.
Proof.
  intros [Hi ->]%Flower_lookup_inv.
  pose proof PI_RGT_0 as Hpi.
  assert (HN : (0 < petalCount fp)%nat) by lia.
  eexists. split; [unfold petalElement; cbn [props rotation]; at_R;
                   reflexivity|].
  split.
  - pose proof (ratio_lt i (petalCount fp) (petalCount fp) Hi HN) as Hlt.
    rewrite (ratio_unit _ HN) in Hlt.
    assert (0 <= INR i / INR (petalCount fp)).
    { unfold Rdiv. apply Rmult_le_pos; [apply pos_INR|].
      left. apply Rinv_0_lt_compat. apply lt_INR in HN. now cbn in HN. }
    nra.
  - intros j e' Hij [Hj ->]%Flower_lookup_inv.
    eexists. split; [unfold petalElement; cbn [props rotation]; at_R;
                     reflexivity|].
    pose proof (ratio_lt i j (petalCount fp) Hij HN). nra.
Qed.

(** X16. Over exact arithmetic, with an even number of petals the layout
    is symmetric about the origin: the petal half a turn further sits at
    the opposite position.  (In doubles the two positions are opposite up
    to rounding only.) *)
Theorem X16_even_layout_is_point_symmetric fp m i e e' :
  petalCount fp = (2 * m)%nat ->
  Flower fp !! i = Some e ->
  Flower fp !! (i + m)%nat = Some e' ->
  let '(x, y, z) := position (props e) in
  position (props e') = (- x, - y, 0).
Proof.
  intros HN [Hi ->]%Flower_lookup_inv [Him ->]%Flower_lookup_inv.
  unfold petalElement. cbn [props position]. at_R. rewrite HN.
  assert (Hm : 0 < INR m) by (apply (lt_INR 0); lia).
  replace (INR (i + m) / INR (2 * m) * PI * (1 + 1))
    with (INR i / INR (2 * m) * PI * (1 + 1) + PI).
  - rewrite neg_cos, neg_sin. f_equal. f_equal; ring.
  - rewrite plus_INR, mult_INR. cbn [INR]. field. lra.
Qed.

End ShapeFacts.

(** * Further facts over IEEE-754 doubles *)

Section NonFiniteFacts.
Variables f64_cos f64_sin : spec_float -> spec_float.
Variable noise3D : spec_float -> spec_float -> spec_float -> spec_float.
Local Abbreviation F64 := (F64_JsNumber f64_cos f64_sin).
Implicit Types (p : @PetalProps spec_float) (r : @PetalRefs spec_float).

Lemma f64_add_nan_l y : SFadd f64_prec f64_emax S754_nan y = S754_nan.
Proof. reflexivity. Qed.

Lemma useFrame_time_nan p delta r :
  is_nan (time_current r) = true ->
  is_nan (time_current (@useFrame _ F64 noise3D p delta r)) = true.
Proof.
  intros Ht. rewrite useFrame_time.
  destruct (time_current r); try discriminate. reflexivity.
Qed.

(** X17. A NaN noiseSpeed or a NaN delta in one frame spoils the phase
    for good: it is NaN after that frame and after every later frame,
    whatever props and deltas those have. *)
Theorem X17_nan_phase_never_recovers p delta r frames :
  is_nan (noiseSpeed p) = true \/ is_nan delta = true ->
  is_nan
    (time_current
       (@runFrames _ F64 noise3D frames
          (@useFrame _ F64 noise3D p delta r))) = true.
Proof.
  intros Hnan.
  assert (H0 : is_nan (time_current (@useFrame _ F64 noise3D p delta r)) =
               true).
  { rewrite useFrame_time.
    cbn [num_add num_mul F64_JsNumber].
    destruct Hnan as [Hs|Hd].
    - destruct (noiseSpeed p); try discriminate.
      now rewrite f64_mul_nan_r, f64_add_nan_r.
    - destruct delta; try discriminate.
      now rewrite f64_mul_nan_l, f64_add_nan_r. }
  generalize dependent (@useFrame _ F64 noise3D p delta r).
  induction frames as [|[p' d'] frames IH]; intros r0 Hr0; [exact Hr0|].
  apply IH. now apply useFrame_time_nan.
Qed.

(** The compression block with a NaN compression makes x and z NaN. *)
Lemma applyCompression_nan p x y z :
  is_nan (compression p) = true ->
  @applyCompression _ F64 p (x, y, z) = (S754_nan, y, S754_nan).
Proof.
  intros Hc. destruct (compression p) eqn:E; try discriminate.
  unfold applyCompression. rewrite E.
  cbn [num_add num_sub num_mul Math_abs num_of_nat F64_JsNumber].
  now rewrite f64_sub_nan_l, f64_mul_nan_l, f64_add_nan_r, !f64_mul_nan_r.
Qed.

(** X18. A NaN compression makes the x and z written for every vertex
    NaN, whatever cos and sin return, and leaves y as the elongation block
    computed it. *)
Theorem X18_nan_compression_spoils_x_and_z p delta r k i :
  refs_ok k r = true ->
  (i < k)%nat ->
  is_nan (compression p) = true ->
  let r' := @useFrame _ F64 noise3D p delta r in
  exists y,
    @readVertex _ F64 (deformedMesh r') i = (S754_nan, y, S754_nan) /\
    y = coord_y (@applyElongation _ F64 p
                   (@applyNoise _ F64 noise3D p (time_current r')
                      (@readVertex _ F64 (baseMesh r) i))).
Proof.
  intros Hok Hi Hc r'. unfold r'.
  rewrite (@useFrame_deformedMesh _ F64 noise3D p delta r k Hok).
  rewrite readVertex_deformedArray by exact Hi.
  rewrite useFrame_time. unfold deformVertex.
  destruct (applyElongation p _) as [[x y] z].
  rewrite applyCompression_nan by exact Hc.
  exists y. split; [|reflexivity].
  unfold applyTwist.
  cbn [num_add num_sub num_mul F64_JsNumber].
  now rewrite !f64_mul_nan_l, f64_sub_nan_l, f64_add_nan_l.
Qed.

(** X19. An infinite elongation, of either sign, never leaves a finite y:
    the elongation block returns NaN for y = 0 or NaN and an infinity for
    every other y. *)
Theorem X19_infinite_elongation_gives_no_finite_y p x y z :
  (exists s, elongation p = S754_infinity s) ->
  let y' := coord_y (@applyElongation _ F64 p (x, y, z)) in
  is_finite y' = false /\
  match y with
  | S754_nan | S754_zero _ => y' = S754_nan
  | _ => exists s', y' = S754_infinity s'
  end.
Proof.
  intros [s Hs].
  unfold applyElongation, coord_y. cbn [fst snd]. rewrite Hs.
  cbn [num_add num_sub num_mul Math_abs num_of_nat F64_JsNumber].
  destruct s, y as [sy|sy| |sy my ey]; try destruct sy;
    (split; [reflexivity|]); try reflexivity; eexists; reflexivity.
Qed.

End NonFiniteFacts.

(** * The further facts at concrete inputs *)

Section MoreWitnesses.
Local Open Scope R_scope.

Lemma X1_witness :
  meshRef_current unattachedRefs = None /\
  meshRef_current
    (runFrames probeNoise [(twistedProps, 1)] unattachedRefs) = None.
Proof.
  split; [reflexivity|].
  apply (X1_unattached_frames_touch_no_geometry probeNoise
           [(twistedProps, 1)] unattachedRefs eq_refl).
Defined.

Lemma X2_witness :
  petalCount (setPetalCount 0 appProps) = 0%nat /\
  render twoVertexGeometry (setPetalCount 0 appProps)
    (render twoVertexGeometry appProps ∅) = ∅.
Proof.
  split; [reflexivity|].
  apply (X2_render_keeps_exactly_petalCount_petals
           twoVertexGeometry (setPetalCount 0 appProps)).
  reflexivity.
Defined.

Lemma X3_witness :
  (petalCount (setPetalSize 3%R appProps) <= petalCount appProps)%nat /\
  render twoVertexGeometry (setPetalSize 3%R appProps)
    (render twoVertexGeometry appProps ∅) =
  render twoVertexGeometry (setPetalSize 3%R appProps) ∅.
Proof.
  assert (Hle : (petalCount (setPetalSize 3%R appProps) <=
                 petalCount appProps)%nat) by (cbn; lia).
  split; [exact Hle|].
  apply (X3_render_absorbs_earlier_render twoVertexGeometry
           appProps (setPetalSize 3%R appProps) ∅ Hle).
Defined.

Lemma X4_witness :
  (petalCount (setPetalCount 3 appProps) <= 4)%nat /\
  (4 < petalCount appProps)%nat /\
  render twoVertexGeometry appProps
    (render twoVertexGeometry (setPetalCount 3 appProps)
       (render twoVertexGeometry appProps ∅)) !! 4%nat =
  Some (mount twoVertexGeometry (petalElement appProps 4)).
Proof.
  assert (H1 : (petalCount (setPetalCount 3 appProps) <= 4)%nat)
    by (cbn; lia).
  assert (H2 : (4 < petalCount appProps)%nat) by (cbn; lia).
  split; [exact H1|]. split; [exact H2|].
  apply (X4_dropped_petal_restarts twoVertexGeometry
           (setPetalCount 3 appProps) appProps _ 4 H1 H2).
Defined.

Lemma X5_witness :
  (0 < petalCount appProps)%nat /\
  exists inst',
    tick probeNoise 1 (render twoVertexGeometry appProps ∅) !! 0%nat =
    Some inst' /\
    inst_props inst' = props (petalElement appProps 0).
Proof.
  assert (H0 : (0 < petalCount appProps)%nat) by (cbn; lia).
  split; [exact H0|].
  destruct (X5_next_frame_uses_the_new_props probeNoise twoVertexGeometry
              appProps ∅ 1 0 H0) as (inst' & Hl & Hp & _).
  exists inst'. split; [exact Hl|exact Hp].
Defined.

Lemma X6_witness :
  length twoVertexGeometry = (3 * 2)%nat /\
  app_ok 2
    (App_run probeNoise twoVertexGeometry
       [ChangePetalCount 3; AnimationFrame 1; ChangeTwist 1]
       (App_start twoVertexGeometry)).
Proof.
  split; [reflexivity|].
  apply (X6_petals_follow_the_app_state probeNoise twoVertexGeometry).
  reflexivity.
Defined.

Lemma X7_witness :
  exists inst',
    app_petals
      (App_step probeNoise twoVertexGeometry (ChangeTwist 1)
         (App_start twoVertexGeometry)) !! 0%nat = Some inst' /\
    inst_refs inst' =
    inst_refs (mount twoVertexGeometry (petalElement App_initial 0)).
Proof.
  apply (X7_controls_keep_the_refs probeNoise twoVertexGeometry
           (ChangeTwist 1) (App_start twoVertexGeometry) 2 0).
  - apply (rerender_ok twoVertexGeometry); [reflexivity|].
    intros i inst Hi. cbn [app_petals] in Hi.
    rewrite lookup_empty in Hi. discriminate.
  - unfold App_start, rerender. cbn [app_petals].
    rewrite render_lookup_lt by (cbn; lia).
    reflexivity.
  - intros n. discriminate.
  - intros delta. discriminate.
Defined.

Lemma X8_witness :
  Forall (fun f : PetalProps * R => 0 <= snd f /\ 0 <= noiseSpeed (fst f))
    [(twistedProps, 1)] /\
  time_current (twoVertexRefs 0) <=
  time_current (runFrames probeNoise [(twistedProps, 1)] (twoVertexRefs 0)).
Proof.
  assert (Hpos : Forall (fun f : PetalProps * R =>
                           0 <= snd f /\ 0 <= noiseSpeed (fst f))
                   [(twistedProps, 1)]).
  { constructor; [|constructor]. cbn. lra. }
  split; [exact Hpos|].
  apply (proj2 (X8_phase_is_the_sum_of_the_gains probeNoise
                  [(twistedProps, 1)] (twoVertexRefs 0)) Hpos).
Defined.

Lemma X10_witness :
  Rabs 1 = 1 /\ applyCompression twistedProps (2, 1, 3) = (2, 1, 3).
Proof.
  split; [apply Rabs_R1|].
  apply (proj1 (X10_compression_profile twistedProps 2 1 3)), Rabs_R1.
Defined.

Lemma X11_witness :
  elongation (neutralProps 1 0.5) = 1 /\
  applyElongation (neutralProps 1 0.5) (2, 0.5, 3) = (2, 0.5, 3).
Proof.
  split; [reflexivity|].
  apply (proj1 (proj2 (proj2 (X11_elongation_profile (neutralProps 1 0.5)
                                2 0.5 3)))).
  reflexivity.
Defined.

Lemma X12_witness :
  refs_ok 2 (twoVertexRefs 0) = true /\
  noiseSpeed (shapeProps 2 0.5 1 1 0) = 0 /\
  deformedMesh
    (runFrames probeNoise ((fun d => (shapeProps 2 0.5 1 1 0, d)) <$> [1; 2])
       (useFrame probeNoise (shapeProps 2 0.5 1 1 0) 1 (twoVertexRefs 0))) =
  deformedMesh
    (useFrame probeNoise (shapeProps 2 0.5 1 1 0) 1 (twoVertexRefs 0)).
Proof.
  split; [reflexivity|]. split; [reflexivity|].
  apply (X12_zero_noiseSpeed_freezes_the_mesh probeNoise
           (shapeProps 2 0.5 1 1 0) (twoVertexRefs 0) 2 1 [1; 2]
           eq_refl eq_refl).
Defined.

Lemma X13_witness :
  let '(x2, y2, z2) := deformVertex probeNoise twistedProps 0 (1, 0, 0) in
  Rabs y2 <= 2.64 /\ x2 * x2 + z2 * z2 <= 11.52.
Proof.
  apply (X13_geometry_stays_bounded probeNoise twistedProps 0 1 0 0).
  - rewrite Rabs_R1. lra.
  - rewrite Rabs_R0. lra.
  - rewrite Rabs_R0. lra.
  - rewrite probeNoise_at_1 by (cbn; lra).
    rewrite Rabs_pos_eq by lra. lra.
  - cbn. lra.
  - cbn. lra.
Defined.

Lemma X14_witness :
  Flower appProps !! 1%nat = Some (petalElement appProps 1) /\
  let '(x, y, z) := position (props (petalElement appProps 1)) in
  x * x + y * y = (petalSize appProps * 0.5) * (petalSize appProps * 0.5) /\
  z = 0.
Proof.
  assert (Hl : Flower appProps !! 1%nat = Some (petalElement appProps 1))
    by (apply Flower_lookup; cbn; lia).
  split; [exact Hl|].
  apply (X14_petals_sit_on_a_circle appProps 1 _ Hl).
Defined.

Lemma X15_witness :
  Flower appProps !! 1%nat = Some (petalElement appProps 1) /\
  exists a,
    rotation (props (petalElement appProps 1)) = (0, 0, a) /\
    0 <= a < 2 * PI.
Proof.
  assert (Hl : Flower appProps !! 1%nat = Some (petalElement appProps 1))
    by (apply Flower_lookup; cbn; lia).
  split; [exact Hl|].
  destruct (X15_angles_increase_within_one_turn appProps 1 _ Hl)
    as (a & Ha & Hb & _).
  exists a. split; [exact Ha|exact Hb].
Defined.

Lemma X16_witness :
  petalCount (setPetalCount 4 appProps) = (2 * 2)%nat /\
  let '(x, y, z) :=
    position (props (petalElement (setPetalCount 4 appProps) 1)) in
  position (props (petalElement (setPetalCount 4 appProps) 3)) =
  (- x, - y, 0).
Proof.
  split; [reflexivity|].
  apply (X16_even_layout_is_point_symmetric (setPetalCount 4 appProps) 2 1);
    [reflexivity| |]; apply Flower_lookup; cbn; lia.
Defined.

Lemma X17_witness :
  is_nan (noiseSpeed (f64Props (f64_of_Z 1) (f64_of_Z 1) S754_nan)) = true /\
  is_nan
    (time_current
       (@runFrames _ (F64_JsNumber (fun x => x) (fun x => x)) flatNoise
          [(nanElongationProps, f64_of_Z 1)]
          (@useFrame _ (F64_JsNumber (fun x => x) (fun x => x)) flatNoise
             (f64Props (f64_of_Z 1) (f64_of_Z 1) S754_nan) (f64_of_Z 1)
             oneVertexRefs))) = true.
Proof.
  split; [reflexivity|].
  apply (X17_nan_phase_never_recovers (fun x => x) (fun x => x) flatNoise).
  left. reflexivity.
Defined.

Lemma X18_witness :
  refs_ok 1 oneVertexRefs = true /\ (0 < 1)%nat /\
  is_nan (compression (f64Props (f64_of_Z 1) S754_nan f64_0_5)) = true /\
  exists y,
    @readVertex _ (F64_JsNumber (fun x => x) (fun x => x))
      (deformedMesh
         (@useFrame _ (F64_JsNumber (fun x => x) (fun x => x)) flatNoise
            (f64Props (f64_of_Z 1) S754_nan f64_0_5) (f64_of_Z 0)
            oneVertexRefs)) 0 = (S754_nan, y, S754_nan).
Proof.
  split; [reflexivity|]. split; [lia|]. split; [reflexivity|].
  destruct (X18_nan_compression_spoils_x_and_z (fun x => x) (fun x => x)
              flatNoise (f64Props (f64_of_Z 1) S754_nan f64_0_5)
              (f64_of_Z 0) oneVertexRefs 1 0 eq_refl ltac:(lia) eq_refl)
    as (y & Hy & _).
  exists y. exact Hy.
Defined.

Lemma X19_witness :
  (exists s,
     elongation (f64Props (S754_infinity false) (f64_of_Z 1) f64_0_5) =
     S754_infinity s) /\
  is_finite
    (coord_y
       (@applyElongation _ (F64_JsNumber (fun x => x) (fun x => x))
          (f64Props (S754_infinity false) (f64_of_Z 1) f64_0_5)
          (f64_of_Z 1, f64_of_Z 1, f64_of_Z 1))) = false.
Proof.
  assert (Hs : exists s,
             elongation (f64Props (S754_infinity false) (f64_of_Z 1) f64_0_5) =
             S754_infinity s) by (exists false; reflexivity).
  split; [exact Hs|].
  apply (X19_infinite_elongation_gives_no_finite_y (fun x => x) (fun x => x)
           (f64Props (S754_infinity false) (f64_of_Z 1) f64_0_5)
           (f64_of_Z 1) (f64_of_Z 1) (f64_of_Z 1) Hs).
Defined.

End MoreWitnesses.

(** * The layout, over exact arithmetic and in doubles *)

Section LayoutFacts.
Local Open Scope R_scope.

Lemma f64_petalAngle_code f64_cos f64_sin N i :
  @petalAngle _ (F64_JsNumber f64_cos f64_sin) N i = f64_petalAngle N i.
Proof. reflexivity. Qed.

(** The checks pass for every petal count the slider can give. *)
Lemma f64_layout_checks_slider :
  forallb f64_layout_checks (seq 1 20) = true.
Proof. vm_compute. reflexivity. Qed.

Lemma f64_layout_in_range N :
  (1 <= N <= 20)%nat ->
  f64_eqb (f64_petalAngle N 0) (f64_of_Z 0) = true /\
  (forall i, (i < N)%nat ->
     f64_eqb (f64_petalAngle N i) (f64_specAngle N i) = true) /\
  (forall i, (S i < N)%nat ->
     f64_ltb (f64_petalAngle N i) (f64_petalAngle N (S i)) = true).
Proof.
  intros HN.
  pose proof (proj1 (List.forallb_forall f64_layout_checks (seq 1 20))
                f64_layout_checks_slider N) as Hc.
  assert (Hin : In N (seq 1 20)) by (apply in_seq; lia).
  specialize (Hc Hin). unfold f64_layout_checks in Hc.
  apply andb_prop in Hc as [Hc Hlt]. apply andb_prop in Hc as [H0 Heq].
  split; [exact H0|]. split.
  - intros i Hi.
    apply (proj1 (List.forallb_forall _ _) Heq i), in_seq. lia.
  - intros i Hi.
    apply (proj1 (List.forallb_forall _ _) Hlt i), in_seq. lia.
Qed.

(** C4, as amended. For every number type and petalCount N >= 1 the
    layout has N placements; placement i has the angle that line 71
    computes, i / N * PI * 2, position (cos angle * petalSize * 0.5,
    sin angle * petalSize * 0.5, 0), rotation angle about z and scale
    petalSize * 0.2 on the three axes, and petalCount = 1 gives a single
    placement.  Over exact arithmetic that angle is (i / N) * 2 pi, the
    angles start at 0 and are exactly 2 pi / N apart.  In binary64, for
    the petal counts 1 to 20 of the slider, the angle equals
    (i / N) * (2 pi), angle 0 is 0 and the angles increase strictly with
    the index. *)
Theorem C4_layout_exact_and_in_doubles :
  (forall (num : Type) (H : JsNumber num) (fp : @FlowerProps num),
     (1 <= petalCount fp)%nat ->
     length (Flower fp) = petalCount fp /\
     (forall i, (i < petalCount fp)%nat ->
        let angle := petalAngle (petalCount fp) i in
        exists e, Flower fp !! i = Some e /\ key e = i /\
          position (props e) =
            (Math_cos angle * petalSize fp * lit_0_5,
             Math_sin angle * petalSize fp * lit_0_5, 0)%js /\
          rotation (props e) = (0, 0, angle)%js /\
          scale (props e) =
            (petalSize fp * lit_0_2, petalSize fp * lit_0_2,
             petalSize fp * lit_0_2)%js) /\
     (petalCount fp = 1%nat ->
      exists e, Flower fp = [e] /\
                rotation (props e) = (0, 0, petalAngle 1 0)%js)) /\
  (forall N i, (1 <= N)%nat ->
     @petalAngle R _ N i = Spec.layoutAngle N i /\
     Spec.layoutAngle N 0 = 0 /\
     Spec.layoutAngle N (S i) - Spec.layoutAngle N i = 2 * PI / INR N) /\
  (forall f64_cos f64_sin N, (1 <= N <= 20)%nat ->
     let angle := @petalAngle _ (F64_JsNumber f64_cos f64_sin) N in
     f64_eqb (angle 0%nat) (f64_of_Z 0) = true /\
     (forall i, (i < N)%nat ->
        f64_eqb (angle i) (f64_specAngle N i) = true) /\
     (forall i, (S i < N)%nat ->
        f64_ltb (angle i) (angle (S i)) = true)).
Proof.
  split; [|split].
  - intros num H fp HN. split; [apply length_Flower|]. split.
    + intros i Hi angle. exists (petalElement fp i).
      split; [now apply Flower_lookup|]. repeat split.
    + intros H1. exists (petalElement fp 0). split.
      * rewrite Flower_fmap, H1. reflexivity.
      * unfold petalElement, petalAngle. cbn [props rotation].
        now rewrite H1.
  - intros N i HN. split; [|split].
    + unfold petalAngle, Spec.layoutAngle.
      cbn [num_mul num_div Math_PI num_of_nat R_JsNumber INR]. ring.
    + unfold Spec.layoutAngle. cbn [INR]. unfold Rdiv. ring.
    + unfold Spec.layoutAngle. rewrite S_INR. unfold Rdiv. ring.
  - intros f64_cos f64_sin N HN angle. unfold angle.
    destruct (f64_layout_in_range N HN) as (H0 & Heq & Hlt).
    split; [exact H0|]. split.
    + intros i Hi. rewrite f64_petalAngle_code. now apply Heq.
    + intros i Hi. rewrite !f64_petalAngle_code. now apply Hlt.
Qed.

(** C4 fails as stated in the doubles the program runs on: with six
    petals the angles of petals 2 and 3 differ by 1.0471975511965979,
    while 2 * Math.PI / 6 is 1.0471975511965976. *)
Lemma C4_counterexample :
  ~ (forall f64_cos f64_sin N i,
       (1 <= N)%nat -> (S i < N)%nat ->
       f64_eqb
         (SFsub f64_prec f64_emax
            (@petalAngle _ (F64_JsNumber f64_cos f64_sin) N (S i))
            (@petalAngle _ (F64_JsNumber f64_cos f64_sin) N i))
         (f64_step N) = true).
Proof.
  intros Hclaim.
  specialize (Hclaim (fun x => x) (fun x => x) 6%nat 2%nat
                ltac:(lia) ltac:(lia)).
  vm_compute in Hclaim. discriminate.
Qed.

Lemma C4_witness :
  (1 <= petalCount appProps)%nat /\
  length (Flower appProps) = petalCount appProps /\
  (1 <= 6 <= 20)%nat /\
  f64_ltb (@petalAngle _ (F64_JsNumber (fun x => x) (fun x => x)) 6 2)
          (@petalAngle _ (F64_JsNumber (fun x => x) (fun x => x)) 6 3) = true.
Proof.
  assert (H5 : (1 <= petalCount appProps)%nat) by (cbn; lia).
  assert (H6 : (1 <= 6 <= 20)%nat) by lia.
  split; [exact H5|].
  split; [exact (proj1 (proj1 C4_layout_exact_and_in_doubles
                          R R_JsNumber appProps H5))|].
  split; [exact H6|].
  apply (proj2 (proj2 (proj2 (proj2 C4_layout_exact_and_in_doubles)
                         (fun x => x) (fun x => x) 6%nat H6))).
  lia.
Defined.

End LayoutFacts.
